(** * Bingokaarten-maker: pool sizing, card generation and text/math classification

    A shallow embedding of the logic of [src/App.tsx] and
    [src/components/BingoCard.tsx], followed by the properties stated in the
    specification.

    Modelling conventions.
    - A JavaScript [number] that holds a count (grid size, card count, pool
      size, card id) is a [Z].  The accumulator [res] of [getCombinations],
      the one number the code divides, is an IEEE 754 binary64 value, as
      in the code: each [*] and each [/] on it rounds to the nearest
      double, ties to even, with the binary64 operations of the Standard
      Library ([SpecFloat], 53 bits of precision, exponents up to 1024).  So
      [getCombinations 56 25] is 5574440580220513, one more than the
      binomial coefficient, as in the code.
    - A JavaScript string is the list of its UTF-16 code units.
    - [Math.random] is an oracle [random : nat -> Q]; the n-th call returns
      [random n], and the number of calls made so far is part of the state.
    - React state is a record; a handler maps the state (plus the record of
      the effects it performed: alerts, console output, service calls and
      status transitions) to the next one. *)

From Stdlib Require Import Arith ZArith QArith Qround Lia String Recdef.
From Stdlib Require Import DecimalString Lqa SpecFloat.
From stdpp Require Import base list.

Open Scope Z_scope.

(** ** JavaScript strings *)

Definition js_string := list N.

(** Code units of a literal written with one-byte characters. *)
Definition js (s : string) : js_string :=
  map (fun b => N.of_nat (Ascii.nat_of_ascii b)) (list_ascii_of_string s).

(** Truthiness of a string: only the empty string is falsy. *)
Definition truthy (s : js_string) : bool :=
  match s with [] => false | _ :: _ => true end.

(** Truthiness of [string | null]. *)
Definition truthy_opt (s : option js_string) : bool :=
  match s with None => false | Some s => truthy s end.

(** ** The shapes of [./types] *)

(** Modelled from the spec: [src/types.ts] is not part of the sources; the
    enumeration lists the statuses named by [App.tsx] and by the lifecycle
    "idle, detecting, confirming, generating, success/error". *)
Inductive GeneratorStatus :=
  | IDLE | DETECTING | CONFIRMING | GENERATING | SUCCESS | ERROR.

(** Modelled from the spec: "BingoItem: {id, problem, answer}". *)
Module BingoItem.
Record t := mk { id : Z; problem : js_string; answer : js_string }.
End BingoItem.

(** A cell is a pool item or the free-space marker ['GRATIS']. *)
Inductive Cell :=
  | Item (item : BingoItem.t)
  | GRATIS.

(** Modelled from the spec: "BingoCardData: {id, cells}". *)
Module BingoCardData.
Record t := mk { id : Z; cells : list Cell }.
End BingoCardData.

(** Modelled from the spec: "SubjectContext: {subject, isMath}". *)
Module SubjectContext.
Record t := mk { subject : js_string; isMath : bool }.
End SubjectContext.

Inductive GenerationMode := similar | exact.

Global Instance GeneratorStatus_eq_dec : EqDecision GeneratorStatus.
Proof. solve_decision. Defined.
Global Instance BingoItem_eq_dec : EqDecision BingoItem.t.
Proof. solve_decision. Defined.
Global Instance Cell_eq_dec : EqDecision Cell.
Proof. solve_decision. Defined.

(** ** Doubles

    The binary64 arithmetic of JavaScript on the accumulator of
    [getCombinations]: [of_Z] is the double of an integer operand (the
    integer itself below 2^53, the nearest double above), [mul] and [div]
    are the correctly rounded product and quotient, overflow to [Infinity]
    included, and [value] is the rational a finite double stands for,
    [m * 2^e]. *)
Module Number.
Definition prec : Z := 53.
Definition emax : Z := 1024.
Definition t : Set := spec_float.
Definition of_Z (z : Z) : t := binary_normalize prec emax z 0 false.
Definition mul : t -> t -> t := SFmul prec emax.
Definition div : t -> t -> t := SFdiv prec emax.
Definition value (x : t) : Q :=
  match x with
  | S754_finite s m e =>
      let v := (inject_Z (Z.pos m) * 2 ^ e)%Q in if s then (- v)%Q else v
  | _ => 0%Q
  end.
End Number.

(** ** Combinatorics helpers ([App.tsx], lines 34-64) *)

(** [Math.round]: the nearest integer, halves going up. *)
Definition Math_round (x : Q) : Z := Qfloor (x + (1 # 2)).

(** [Math.round] of a double, as the integer it is.  [Infinity], which the
    accumulator reaches only above 1.8 * 10^308 (pools of more than 1000
    items), is no integer: it stands here as 2^1024, which like [Infinity]
    is above every finite double it can be compared with.  [NaN] does not
    arise from the products and quotients of the loop, whose operands are
    never zero. *)
Definition Math_round_double (x : Number.t) : Z :=
  match x with
  | S754_infinity s => if s then - 2 ^ 1024 else 2 ^ 1024
  | S754_nan => 0
  | _ => Math_round (Number.value x)
  end.

(** [x > y] on numbers. *)
Definition Qgtb (x y : Q) : bool := negb (Qle_bool x y).

(** The body of [for (let i = 1; i <= r; i++) res = res * (n - i + 1) / i],
    with [steps] the number of iterations left: the product is rounded to a
    double, then the quotient is. *)
Fixpoint getCombinations_loop (steps : nat) (n i : Z) (res : Number.t)
    : Number.t :=
  match steps with
  | O => res
  | S steps' =>
      getCombinations_loop steps' n (i + 1)
        (Number.div (Number.mul res (Number.of_Z (n - i + 1)))
           (Number.of_Z i))
  end.

Definition getCombinations (n r : Z) : Z :=
  if r >? n then 0
  else if (r =? 0) || (r =? n) then 1
  else
    let r := if Qgtb (inject_Z r) (inject_Z n / 2) then n - r else r in
    Math_round_double (getCombinations_loop (Z.to_nat r) n 1 (Number.of_Z 1)).

Definition getItemsPerCard (gridRows gridCols : Z) : Z := gridRows * gridCols.

(** The [while (true)] search of the pool-size effect.  It stops when the
    number of combinations reaches the card count, or right after the
    candidate has been incremented past 100. *)
Function minPool_loop (itemsPerCard cardCount calculatedMinPool : Z)
    {measure (fun m => Z.to_nat (101 - m)) calculatedMinPool} : Z :=
  let combinations := getCombinations calculatedMinPool itemsPerCard in
  if combinations >=? cardCount then calculatedMinPool
  else
    if calculatedMinPool + 1 >? 100 then calculatedMinPool + 1
    else minPool_loop itemsPerCard cardCount (calculatedMinPool + 1).
Proof.
  intros k c m _ Hcap. rewrite Z.gtb_ltb in Hcap.
  apply Z.ltb_ge in Hcap. lia.
Defined.

(** The value of [calculatedMinPool] when the loop is left. *)
Definition calculatedMinPool (gridRows gridCols cardCount : Z) : Z :=
  let itemsPerCard := getItemsPerCard gridRows gridCols in
  minPool_loop itemsPerCard cardCount itemsPerCard.

Definition suggestedMin (gridRows gridCols cardCount : Z) : Z :=
  let itemsPerCard := getItemsPerCard gridRows gridCols in
  Z.max (calculatedMinPool gridRows gridCols cardCount) (itemsPerCard + 1).

(** "n choose k" as the specification means it: Pascal's triangle. *)
Fixpoint choose (n k : nat) : nat :=
  match n, k with
  | _, O => 1
  | O, S _ => 0
  | S n', S k' => choose n' k' + choose n' k
  end.

(** Pascal's triangle on integers, row by row: [pascal n] is the list
    C(n, 0), ..., C(n, n). *)
Fixpoint next_row (prev : Z) (row : list Z) : list Z :=
  match row with
  | [] => [prev]
  | x :: rest => (prev + x) :: next_row x rest
  end.

Fixpoint pascal (n : nat) : list Z :=
  match n with
  | O => [1]
  | S n' => next_row 0 (pascal n')
  end.

(** The accumulator of [getCombinations] after 0, 1, ..., [steps]
    iterations of its loop. *)
Fixpoint accumulators (steps : nat) (n i : Z) (res : Number.t)
    : list Number.t :=
  res ::
  match steps with
  | O => []
  | S steps' =>
      accumulators steps' n (i + 1)
        (Number.div (Number.mul res (Number.of_Z (n - i + 1)))
           (Number.of_Z i))
  end.

(** The values of [getCombinations] for a pool of [n] items and 0, 1, ...,
    [n] items per card, read off one run of the loop. *)
Definition combinations_row (n : nat) : list Z :=
  let rounded :=
    map Math_round_double
      (accumulators (n / 2) (Z.of_nat n) 1 (Number.of_Z 1)) in
  map (fun r => nth (Nat.min r (n - r)) rounded 0) (seq 0 (S n)).

(** C(56, 23), the smallest binomial coefficient that [getCombinations]
    does not compute exactly. *)
Definition first_inexact : Z := 3167295784216200.

(** [g], computed for a pool of [n] items, is the binomial coefficient
    [c], or the pool has 56 items or more and both are at least
    [first_inexact]. *)
Definition exact_or_large (n : nat) (g c : Z) : bool :=
  (g =? c) || ((56 <=? n)%nat && (first_inexact <=? g) && (first_inexact <=? c)).

Fixpoint all2 (f : Z -> Z -> bool) (l l' : list Z) : bool :=
  match l, l' with
  | a :: l, b :: l' => f a b && all2 f l l'
  | _, _ => true
  end.

(** The rows of pools [n], ..., [n + count]: each row of [getCombinations]
    is checked against the row [prow] of Pascal's triangle, and against the
    row of the next pool size, which must not be smaller anywhere. *)
Fixpoint check_rows (count n : nat) (prow grow : list Z) : bool :=
  all2 (exact_or_large n) grow prow &&
  match count with
  | O => true
  | S count' =>
      let grow' := combinations_row (S n) in
      all2 Z.leb grow grow' &&
      check_rows count' (S n) (next_row 0 prow) grow'
  end.

(** ** The text-versus-math heuristic *)

(** The regular expressions of the heuristic are character classes, tested
    either somewhere in the string or on the whole string. *)
Inductive ClassItem :=
  | Chr (c : N)              (* one literal character *)
  | Rng (lo hi : N)          (* a range lo-hi *)
  | Digit                    (* \d *)
  | Space.                   (* \s *)

(** The code units matched by [\s]: white space and line terminators. *)
Definition is_white_space (c : N) : bool :=
  ((9 <=? c) && (c <=? 13) || (c =? 32) || (c =? 160) || (c =? 5760)
   || (8192 <=? c) && (c <=? 8202) || (c =? 8232) || (c =? 8233)
   || (c =? 8239) || (c =? 8287) || (c =? 12288) || (c =? 65279))%N.

Definition item_matches (it : ClassItem) (c : N) : bool :=
  match it with
  | Chr d => (c =? d)%N
  | Rng lo hi => ((lo <=? c) && (c <=? hi))%N
  | Digit => ((48 <=? c) && (c <=? 57))%N
  | Space => is_white_space c
  end.

Definition class_matches (cls : list ClassItem) (c : N) : bool :=
  existsb (fun it => item_matches it c) cls.

(** [/[cls]/.test(s)]: some code unit of [s] is in the class. *)
Definition test_some (cls : list ClassItem) (s : js_string) : bool :=
  existsb (class_matches cls) s.

(** [/^[cls]+$/.test(s)]: [s] is not empty and all its code units are in the
    class. *)
Definition test_all (cls : list ClassItem) (s : js_string) : bool :=
  match s with
  | [] => false
  | _ :: _ => forallb (class_matches cls) s
  end.

(** The class of the first test: backslash, equals sign, the two braces,
    caret and underscore. *)
Definition markup_class : list ClassItem :=
  [Chr 92; Chr 61; Chr 123; Chr 125; Chr 94; Chr 95]%N.

(** The class of the last test: a-z, A-Z, U+00C0-U+00FF, \s, and the
    characters full stop, comma, question mark, exclamation mark,
    apostrophe, double quote and hyphen. *)
Definition text_class : list ClassItem :=
  [Rng 97 122; Rng 65 90; Rng 192 255; Space;
   Chr 46; Chr 44; Chr 63; Chr 33; Chr 39; Chr 34; Chr 45]%N.

Module App.
(** [App.tsx], lines 395-401: used by the calling list. *)
Definition shouldRenderAsText (content : js_string) : bool :=
  if negb (truthy content) then true
  else if test_some markup_class content then false
  else if test_some [Digit] content then false
  else if (length content <=? 2)%nat then false
  else test_all text_class content.
End App.

Module BingoCard.
(** [components/BingoCard.tsx], lines 27-37: used by the card view. *)
Definition shouldRenderAsText (content : js_string) : bool :=
  if negb (truthy content) then true
  else
    (* backslashes, braces, or equals: definitely Latex/Math *)
    if test_some markup_class content then false
    else
      (* digits: math-related *)
      if test_some [Digit] content then false
      else
        (* short: a math variable *)
        if (length content <=? 2)%nat then false
        else test_all text_class content.
End BingoCard.

(** ** Arrays *)

(** How [Array.prototype.slice] turns an argument into a position. *)
Definition relative_index (len k : Z) : Z :=
  if k <? 0 then Z.max (len + k) 0 else Z.min k len.

Definition Array_slice {T} (arr : list T) (start final : Z) : list T :=
  let len := Z.of_nat (length arr) in
  let k := relative_index len start in
  let final := relative_index len final in
  take (Z.to_nat (final - k)) (drop (Z.to_nat k) arr).

(** [[arr[i], arr[j]] = [arr[j], arr[i]]] for two positions of the array.
    [shuffleArray] only ever swaps inside the array (lemma
    [randomIndex_le]), and the properties below use nothing else: a list has
    no holes, so a position outside the array is not modelled and the list
    is returned as it is. *)
Definition swap {T} (arr : list T) (i j : nat) : list T :=
  match arr !! i, arr !! j with
  | Some x, Some y => <[j := x]> (<[i := y]> arr)
  | _, _ => arr
  end.

(** ** Application state and effects *)

(** What the service calls come back with. *)
Inductive Outcome (A : Type) :=
  | Resolved (a : A)
  | Rejected (e : js_string).
Arguments Resolved {A} a.
Arguments Rejected {A} e.

Inductive Event :=
  | Alert (msg : js_string)
  | ConsoleError (msg : js_string)
  | StatusSet (st : GeneratorStatus)
  | DetectSubjectCall (topic : js_string) (image : option js_string)
  | GenerateBingoItemsCall (context : SubjectContext.t) (topic : js_string)
      (poolSize : Z) (image : option js_string) (mode : GenerationMode).

(** The [useState] cells of [App]. *)
Record AppState := mkAppState {
  status : GeneratorStatus;
  items : list BingoItem.t;
  cards : list BingoCardData.t;
  subjectContext : SubjectContext.t;
  tempSubjectName : js_string;
  gridRows : Z;
  gridCols : Z;
  cardCount : Z;
  poolSize : Z;
  minPoolSize : Z;
  topic : js_string;
  selectedImage : option js_string;
  generationMode : GenerationMode;
  isDownloading : bool;
  downloadProgress : Z
}.

(** The state, the number of [Math.random] calls made, and the effects
    performed so far (oldest first). *)
Record World := mkWorld {
  app : AppState;
  rng : nat;
  events : list Event
}.

Definition initialState : AppState :=
  {| status := IDLE; items := []; cards := [];
     subjectContext := SubjectContext.mk [] false; tempSubjectName := [];
     gridRows := 3; gridCols := 3; cardCount := 30; poolSize := 13;
     minPoolSize := 9; topic := []; selectedImage := None;
     generationMode := similar; isDownloading := false;
     downloadProgress := 0 |}.

Definition with_status (st : GeneratorStatus) (s : AppState) : AppState :=
  mkAppState st (items s) (cards s) (subjectContext s) (tempSubjectName s)
    (gridRows s) (gridCols s) (cardCount s) (poolSize s) (minPoolSize s)
    (topic s) (selectedImage s) (generationMode s) (isDownloading s)
    (downloadProgress s).

Definition with_items (l : list BingoItem.t) (s : AppState) : AppState :=
  mkAppState (status s) l (cards s) (subjectContext s) (tempSubjectName s)
    (gridRows s) (gridCols s) (cardCount s) (poolSize s) (minPoolSize s)
    (topic s) (selectedImage s) (generationMode s) (isDownloading s)
    (downloadProgress s).

Definition with_cards (l : list BingoCardData.t) (s : AppState) : AppState :=
  mkAppState (status s) (items s) l (subjectContext s) (tempSubjectName s)
    (gridRows s) (gridCols s) (cardCount s) (poolSize s) (minPoolSize s)
    (topic s) (selectedImage s) (generationMode s) (isDownloading s)
    (downloadProgress s).

Definition with_subjectContext (c : SubjectContext.t) (s : AppState)
    : AppState :=
  mkAppState (status s) (items s) (cards s) c (tempSubjectName s)
    (gridRows s) (gridCols s) (cardCount s) (poolSize s) (minPoolSize s)
    (topic s) (selectedImage s) (generationMode s) (isDownloading s)
    (downloadProgress s).

Definition with_tempSubjectName (n : js_string) (s : AppState) : AppState :=
  mkAppState (status s) (items s) (cards s) (subjectContext s) n
    (gridRows s) (gridCols s) (cardCount s) (poolSize s) (minPoolSize s)
    (topic s) (selectedImage s) (generationMode s) (isDownloading s)
    (downloadProgress s).

Definition with_poolSize (n : Z) (s : AppState) : AppState :=
  mkAppState (status s) (items s) (cards s) (subjectContext s)
    (tempSubjectName s) (gridRows s) (gridCols s) (cardCount s) n
    (minPoolSize s) (topic s) (selectedImage s) (generationMode s)
    (isDownloading s) (downloadProgress s).

Definition with_minPoolSize (n : Z) (s : AppState) : AppState :=
  mkAppState (status s) (items s) (cards s) (subjectContext s)
    (tempSubjectName s) (gridRows s) (gridCols s) (cardCount s) (poolSize s)
    n (topic s) (selectedImage s) (generationMode s) (isDownloading s)
    (downloadProgress s).

Definition with_topic (t : js_string) (s : AppState) : AppState :=
  mkAppState (status s) (items s) (cards s) (subjectContext s)
    (tempSubjectName s) (gridRows s) (gridCols s) (cardCount s) (poolSize s)
    (minPoolSize s) t (selectedImage s) (generationMode s) (isDownloading s)
    (downloadProgress s).


Definition update (f : AppState -> AppState) (w : World) : World :=
  mkWorld (f (app w)) (rng w) (events w).

Definition emit (e : Event) (w : World) : World :=
  mkWorld (app w) (rng w) (events w ++ [e]).

Definition setStatus (st : GeneratorStatus) (w : World) : World :=
  emit (StatusSet st) (update (with_status st) w).

(** The pool-size effect ([App.tsx], lines 50-64); it runs when the card
    count or the grid changes. *)
Definition poolSizeEffect (s : AppState) : AppState :=
  let suggested := suggestedMin (gridRows s) (gridCols s) (cardCount s) in
  with_poolSize suggested (with_minPoolSize suggested s).

(** ** Shuffling, card generation and the handlers ([App.tsx], lines 69-135) *)

Section Logic.

(** The n-th value returned by [Math.random]. *)
Variable random : nat -> Q.

(** The two calls into [./services/geminiService]. *)
Variable detectSubject :
  js_string -> option js_string -> Outcome SubjectContext.t.
Variable generateBingoItems :
  SubjectContext.t -> js_string -> Z -> option js_string ->
  GenerationMode -> Outcome (list BingoItem.t).

(** [Math.floor(Math.random() * (i + 1))], drawn as call number [rng]; it
    is an array position, hence a [nat]. *)
Definition randomIndex (rng i : nat) : nat :=
  Z.to_nat (Qfloor (random rng * inject_Z (Z.of_nat i + 1))).

(** [for (let i = arr.length - 1; i > 0; i--)], from position [i] down. *)
Fixpoint shuffleArray_loop {T} (i : nat) (arr : list T) (rng : nat)
    : list T * nat :=
  match i with
  | O => (arr, rng)
  | S i' =>
      let j := randomIndex rng i in
      shuffleArray_loop i' (swap arr i j) (S rng)
  end.

Definition shuffleArray {T} (array : list T) (rng : nat) : list T * nat :=
  let arr := array in
  shuffleArray_loop (length arr - 1) arr rng.

(** [for (let i = 1; i <= count; i++)] of [generateCards], with [steps]
    iterations left.  [None] is the early [return] taken after the
    console error; otherwise the loop ends with [newCards]. *)
Fixpoint generateCards_loop (steps : nat) (i : Z) (pool : list BingoItem.t)
    (itemsNeededPerCard : Z) (newCards : list BingoCardData.t) (rng : nat)
    : option (list BingoCardData.t) * nat :=
  match steps with
  | O => (Some newCards, rng)
  | S steps' =>
      let '(shuffled, rng) := shuffleArray pool rng in
      if Z.of_nat (length shuffled) <? itemsNeededPerCard then (None, rng)
      else
        let selectedItems := Array_slice shuffled 0 itemsNeededPerCard in
        generateCards_loop steps' (i + 1) pool itemsNeededPerCard
          (newCards ++ [BingoCardData.mk i (map Item selectedItems)]) rng
  end.

Definition generateCards (pool : list BingoItem.t) (count : Z) (w : World)
    : World :=
  let itemsNeededPerCard := gridRows (app w) * gridCols (app w) in
  match generateCards_loop (Z.to_nat count) 1 pool itemsNeededPerCard []
          (rng w) with
  | (None, rng') =>
      mkWorld (app w) rng'
        (events w ++ [ConsoleError (js "Not enough items to fill a card!")])
  | (Some newCards, rng') =>
      mkWorld (with_cards newCards (app w)) rng' (events w)
  end.

(** Step 1: detect the subject. *)
Definition handleStartGeneration (w : World) : World :=
  let s := app w in
  if negb (truthy (topic s)) && negb (truthy_opt (selectedImage s)) then
    emit (Alert (js "Voer een onderwerp in of upload een afbeelding.")) w
  else
    let w := setStatus DETECTING w in
    let w := emit (DetectSubjectCall (topic s) (selectedImage s)) w in
    match detectSubject (topic s) (selectedImage s) with
    | Resolved context =>
        let w := update (with_subjectContext context) w in
        let w :=
          update (with_tempSubjectName (SubjectContext.subject context)) w in
        setStatus CONFIRMING w
    | Rejected e =>
        let w := emit (ConsoleError e) w in
        setStatus ERROR w
    end.

(** Step 2: confirm and generate. *)
Definition handleConfirmAndGenerate (w : World) : World :=
  let s := app w in
  let finalContext :=
    SubjectContext.mk (tempSubjectName s)
      (SubjectContext.isMath (subjectContext s)) in
  let w := update (with_subjectContext finalContext) w in
  let w := setStatus GENERATING w in
  let w :=
    emit (GenerateBingoItemsCall finalContext (topic s) (poolSize s)
            (selectedImage s) (generationMode s)) w in
  match generateBingoItems finalContext (topic s) (poolSize s)
          (selectedImage s) (generationMode s) with
  | Resolved pool =>
      let w := update (with_items pool) w in
      let w := generateCards pool (cardCount s) w in
      setStatus SUCCESS w
  | Rejected e =>
      let w := emit (ConsoleError e) w in
      setStatus ERROR w
  end.


End Logic.

(** ** Vocabulary of the properties *)

(** Where the search leaves its candidate when the ceiling stops it: the
    candidate is incremented first and compared with 100 afterwards. *)
Definition ceiling_exit (start : Z) : Z := Z.max (start + 1) 101.

(** Characters named by the heuristic. *)
Definition is_markup (c : N) : Prop := c ∈ [92; 61; 123; 125; 94; 95]%N.
Definition is_digit (c : N) : Prop := (48 <= c <= 57)%N.

(** A letter a-z or A-Z, a character in U+00C0-U+00FF, white space, or one
    of the punctuation marks the last test lists. *)
Definition is_text_char (c : N) : Prop := class_matches text_class c = true.

(** The contract of [Math.random]: a value in the interval [0, 1). *)
Definition unit_interval (random : nat -> Q) : Prop :=
  forall n, (0 <= random n)%Q /\ (random n < 1)%Q.

(** The event is a call into the AI service. *)
Definition is_service_call (e : Event) : bool :=
  match e with
  | DetectSubjectCall _ _ | GenerateBingoItemsCall _ _ _ _ _ => true
  | _ => false
  end.

Definition is_status_set (e : Event) : bool :=
  match e with StatusSet _ => true | _ => false end.

(** A card filled from [pool] for a grid of [n] cells: [n] cells, none of
    them the free-space marker, the items taken from the pool without
    taking any position of the pool twice. *)
Definition valid_card (pool : list BingoItem.t) (n : Z)
    (card : BingoCardData.t) : Prop :=
  exists selected : list BingoItem.t,
    BingoCardData.cells card = map Item selected /\
    Z.of_nat (length selected) = n /\
    selected ⊆+ pool.

(** ** A session, for the examples *)

Definition item (n : Z) : BingoItem.t :=
  BingoItem.mk n (js "vraag") (js "antwoord").

Definition pool_of (n : nat) : list BingoItem.t :=
  map (fun i => item (Z.of_nat i)) (seq 1 n).

(** A source of random numbers that cycles through 0, 1/7, ..., 6/7. *)
Definition random7 (n : nat) : Q := Z.of_nat (n mod 7) # 7.

(** A service that takes the topic as the subject and returns as many items
    as it is asked for, and one that is unreachable. *)
Definition detect_topic (topic : js_string) (_ : option js_string)
    : Outcome SubjectContext.t :=
  Resolved (SubjectContext.mk topic false).

Definition items_as_requested (_ : SubjectContext.t) (_ : js_string)
    (poolSize : Z) (_ : option js_string) (_ : GenerationMode)
    : Outcome (list BingoItem.t) :=
  Resolved (pool_of (Z.to_nat poolSize)).

Definition no_detect (_ : js_string) (_ : option js_string)
    : Outcome SubjectContext.t :=
  Rejected (js "offline").

(** The world right after the page is loaded, before the first effect. *)
Definition fresh_world : World := mkWorld initialState 0 [].

(** The topic "Dieren" is typed and both steps of the generation are run
    with the default settings: 30 cards of 3x3 from the suggested pool of
    11 items. *)
Definition generated_world : World :=
  let w := update poolSizeEffect fresh_world in
  let w := update (with_topic (js "Dieren")) w in
  let w := handleStartGeneration detect_topic w in
  handleConfirmAndGenerate random7 items_as_requested w.


(** ** The uploaded image ([App.tsx], lines 375-392) *)

Definition with_selectedImage (i : option js_string) (s : AppState)
    : AppState :=
  mkAppState (status s) (items s) (cards s) (subjectContext s)
    (tempSubjectName s) (gridRows s) (gridCols s) (cardCount s) (poolSize s)
    (minPoolSize s) (topic s) i (generationMode s) (isDownloading s)
    (downloadProgress s).

Definition with_generationMode (m : GenerationMode) (s : AppState)
    : AppState :=
  mkAppState (status s) (items s) (cards s) (subjectContext s)
    (tempSubjectName s) (gridRows s) (gridCols s) (cardCount s) (poolSize s)
    (minPoolSize s) (topic s) (selectedImage s) m (isDownloading s)
    (downloadProgress s).

(** [handleImageUpload]: [file] is [None] when no file was chosen; otherwise
    it holds [reader.result], the data URL the reader ends with (or null),
    and the [onloadend] callback runs. *)
Definition handleImageUpload (file : option (option js_string))
    (s : AppState) : AppState :=
  match file with
  | Some result => with_generationMode similar (with_selectedImage result s)
  | None => s
  end.

(** [clearImage]; emptying the file input leaves the state alone. *)
Definition clearImage (s : AppState) : AppState := with_selectedImage None s.

(** ** What a cell is rendered as *)

(** The three things the JSX puts in a cell: the free-space label, a
    [MathDisplay] of a formula, or the plain text. *)
Inductive Rendered :=
  | FreeLabel
  | MathDisplay (latex : js_string)
  | PlainText (content : js_string).

Module CardView.

(** [components/BingoCard.tsx], lines 17-23: the flat array cut into rows,
    with [steps] iterations of [for (let i = 0; i < rows; i++)] left. *)
Fixpoint gridRows_loop (steps : nat) (i : Z) (cells : list Cell) (cols : Z)
    (result : list (list Cell)) : list (list Cell) :=
  match steps with
  | O => result
  | S steps' =>
      gridRows_loop steps' (i + 1) cells cols
        (result ++ [Array_slice cells (i * cols) ((i + 1) * cols)])
  end.

Definition gridRows (card : BingoCardData.t) (rows cols : Z)
    : list (list Cell) :=
  gridRows_loop (Z.to_nat rows) 0 (BingoCardData.cells card) cols [].

(** Lines 51-83: how one cell is shown. *)
Definition renderCell (isMath : bool) (cell : Cell) : Rendered :=
  let isFree := match cell with GRATIS => true | Item _ => false end in
  let content :=
    match cell with
    | Item item =>
        if truthy (BingoItem.answer item) then BingoItem.answer item else []
    | GRATIS => []
    end in
  let isTextOverride := isMath && BingoCard.shouldRenderAsText content in
  if isFree then FreeLabel
  else if isMath && negb isTextOverride then MathDisplay content
  else PlainText content.


End CardView.

Module CallingList.

(** [App.tsx], lines 752-767: one row of the calling list, with its number,
    the question and the answer. *)
Definition cell (isMath : bool) (content : js_string) : Rendered :=
  let isText := isMath && App.shouldRenderAsText content in
  if isMath && negb isText then MathDisplay content else PlainText content.

Definition row (isMath : bool) (idx : nat) (item : BingoItem.t)
    : Z * Rendered * Rendered :=
  (Z.of_nat idx + 1,
   cell isMath (BingoItem.problem item),
   cell isMath (BingoItem.answer item)).

Definition rows (isMath : bool) (items : list BingoItem.t)
    : list (Z * Rendered * Rendered) :=
  imap (row isMath) items.

End CallingList.

(** ** The name of the exported file ([App.tsx], line 363) *)

Definition swap_ascii_case (c : N) : N :=
  if ((97 <=? c) && (c <=? 122))%N then (c - 32)%N
  else if ((65 <=? c) && (c <=? 90))%N then (c + 32)%N
  else c.

(** A class of ASCII characters tested with the flag [i] (and without the
    flag [u]): a code unit is compared after upper-casing, and a code unit
    from 128 on never upper-cases into ASCII, so the test succeeds on the
    members of the class and on the ASCII letters of the other case. *)
Definition class_matches_i (cls : list ClassItem) (c : N) : bool :=
  class_matches cls c || class_matches cls (swap_ascii_case c).

(** [subject.replace(/[^a-z0-9]/gi, '_')] *)
Definition replace_unsafe (subject : js_string) : js_string :=
  map (fun c =>
         if negb (class_matches_i [Rng 97 122; Rng 48 57]%N c) then 95%N
         else c)
    subject.

Definition pdfFileName (subject : js_string) : js_string :=
  js "Bingo-" ++ replace_unsafe subject ++ js ".pdf".

(** ** Vocabulary of the further properties *)

(** What a handler that only sets the status, the subject and its editable
    name leaves alone. *)
Definition same_settings (s s' : AppState) : Prop :=
  items s' = items s /\ cards s' = cards s /\
  gridRows s' = gridRows s /\ gridCols s' = gridCols s /\
  cardCount s' = cardCount s /\ poolSize s' = poolSize s /\
  minPoolSize s' = minPoolSize s /\ topic s' = topic s /\
  selectedImage s' = selectedImage s /\
  generationMode s' = generationMode s /\
  isDownloading s' = isDownloading s /\
  downloadProgress s' = downloadProgress s.

(** The subject as edited in the confirmation dialog, and what the item
    generation comes back with when it is called from state [s]. *)
Definition editedContext (s : AppState) : SubjectContext.t :=
  SubjectContext.mk (tempSubjectName s)
    (SubjectContext.isMath (subjectContext s)).

Definition itemsOutcome
    (generateBingoItems :
       SubjectContext.t -> js_string -> Z -> option js_string ->
       GenerationMode -> Outcome (list BingoItem.t))
    (s : AppState) : Outcome (list BingoItem.t) :=
  generateBingoItems (editedContext s) (topic s) (poolSize s)
    (selectedImage s) (generationMode s).

(** The session of [generated_world], stopped at the confirmation dialog. *)
Definition confirming_world : World :=
  let w := update poolSizeEffect fresh_world in
  let w := update (with_topic (js "Dieren")) w in
  handleStartGeneration detect_topic w.


(** A session in which an image was uploaded and "exact" was chosen. *)
Definition exact_image_world : World :=
  update (with_generationMode exact)
    (update (handleImageUpload (Some (Some (js "data:image/png;base64,iVBOR"))))
       confirming_world).

(** An ASCII letter or digit. *)
Definition is_alnum (c : N) : Prop :=
  (97 <= c <= 122)%N \/ (65 <= c <= 90)%N \/ (48 <= c <= 57)%N.

(** ** The native PDF ([App.tsx], lines 139-242) *)

(** The calls made on the jsPDF document, in order.  Lengths are in mm. *)
Inductive DocCall :=
  | setFontSize (size : Q)
  | setTextColor (channels : list Z)
  | setFont (fontName fontStyle : js_string)
  | text (content : js_string) (x y : Q) (align : js_string)
      (baseline : option js_string)
  | textLines (lines : list js_string) (x y : Q) (align : js_string)
  | addPage
  | setFillColor (r g b : Z)
  | rect (x y w h : Q) (style : option js_string)
  | setDrawColor (ch : Z)
  | setLineWidth (width : Q).

(** An integer in a template literal. *)
Definition Number_toString (z : Z) : js_string :=
  js (NilZero.string_of_int (Z.to_int z)).

Definition pageWidth : Q := 210%Q.
Definition pageHeight : Q := 297%Q.
Definition margin : Q := 10%Q.
Definition cardWidth : Q := 90%Q.
Definition gap : Q := 10%Q.
Definition headerHeight : Q := 8%Q.

Definition cellWidth (cols : Z) : Q := (cardWidth / inject_Z cols)%Q.
Definition cellHeight (cols : Z) : Q := cellWidth cols.
Definition totalCardHeight (rows cols : Z) : Q :=
  (inject_Z rows * cellHeight cols + headerHeight)%Q.

(** The font size of an answer: 11, 9 above ten code units, 8 above
    twenty. *)
Definition answerFontSize (answer : js_string) : Q :=
  let fontSize := 11%Q in
  let fontSize := if (10 <? length answer)%nat then 9%Q else fontSize in
  let fontSize := if (20 <? length answer)%nat then 8%Q else fontSize in
  fontSize.

Section NativePDF.

(** [doc.splitTextToSize], which wraps a text at the font size in use. *)
Variable splitTextToSize : Q -> js_string -> Q -> list js_string.

(** The body of the two nested loops, for row [r] and column [c]. *)
Definition drawCell (x gridStartY : Q) (cols : Z) (cells : list Cell)
    (r c : Z) : list DocCall :=
  let cellIndex := r * cols + c in
  if cellIndex >=? Z.of_nat (length cells) then []
  else
    let cellX := (x + inject_Z c * cellWidth cols)%Q in
    let cellY := (gridStartY + inject_Z r * cellHeight cols)%Q in
    match cells !! Z.to_nat cellIndex with
    | None => []
    | Some item =>
        let centerX := (cellX + cellWidth cols / 2)%Q in
        let centerY := (cellY + cellHeight cols / 2)%Q in
        rect cellX cellY (cellWidth cols) (cellHeight cols) None
        :: match item with
           | GRATIS =>
               [setFontSize 8%Q; setTextColor [150];
                text (js "GRATIS") centerX centerY (js "center")
                  (Some (js "middle"))]
           | Item item =>
               let answer := BingoItem.answer item in
               let fontSize := answerFontSize answer in
               let maxLineWidth := (cellWidth cols - 4)%Q in
               let lines := splitTextToSize fontSize answer maxLineWidth in
               let lineHeight :=
                 (fontSize * (3527 # 10000) * (12 # 10))%Q in
               let blockHeight :=
                 (inject_Z (Z.of_nat (length lines)) * lineHeight)%Q in
               let textStartY :=
                 (centerY - blockHeight / 2 + lineHeight / (15 # 10))%Q in
               [setFontSize fontSize; setTextColor [0];
                textLines lines centerX textStartY (js "center")]
           end
    end.

(** [for (let c = 0; c < cols; c++)], with [steps] iterations left. *)
Fixpoint drawRow (steps : nat) (x gridStartY : Q) (cols : Z)
    (cells : list Cell) (r c : Z) : list DocCall :=
  match steps with
  | O => []
  | S steps' =>
      drawCell x gridStartY cols cells r c
      ++ drawRow steps' x gridStartY cols cells r (c + 1)
  end.

(** [for (let r = 0; r < rows; r++)], with [steps] iterations left. *)
Fixpoint drawGrid (steps : nat) (x gridStartY : Q) (cols : Z)
    (cells : list Cell) (r : Z) : list DocCall :=
  match steps with
  | O => []
  | S steps' =>
      drawRow (Z.to_nat cols) x gridStartY cols cells r 0
      ++ drawGrid steps' x gridStartY cols cells (r + 1)
  end.

(** The callback of [cards.forEach], for the card at [index] out of
    [total]: the calls it makes and the cursor it leaves. *)
Definition drawCard (rows cols : Z) (total : nat) (card : BingoCardData.t)
    (index : nat) (cursorY : Q) : list DocCall * Q :=
  let colIndex := (index mod 2)%nat in
  let '(paging, cursorY) :=
    if (colIndex =? 0)%nat then
      if Qgtb (cursorY + totalCardHeight rows cols)%Q
           (pageHeight - margin)%Q
      then ([addPage], (margin + 10)%Q)
      else ([], cursorY)
    else ([], cursorY) in
  let x :=
    (margin + inject_Z (Z.of_nat colIndex) * (cardWidth + gap))%Q in
  let y := cursorY in
  let header :=
    [setFillColor 79 70 229;
     rect x y cardWidth headerHeight (Some (js "F"));
     setDrawColor 0;
     setLineWidth (5 # 10);
     rect x y cardWidth headerHeight None;
     setFontSize 10%Q;
     setTextColor [255; 255; 255];
     setFont (js "helvetica") (js "bold");
     text (js "BINGO KAART #" ++ Number_toString (BingoCardData.id card))
       (x + cardWidth / 2)%Q (y + (55 # 10))%Q (js "center") None] in
  let gridStartY := (y + headerHeight)%Q in
  let border :=
    [setDrawColor 0;
     rect x gridStartY cardWidth (inject_Z rows * cellHeight cols)%Q None] in
  let grid :=
    drawGrid (Z.to_nat rows) x gridStartY cols (BingoCardData.cells card) 0 in
  let cursorY :=
    if (colIndex =? 1)%nat || (index =? total - 1)%nat
    then (cursorY + (totalCardHeight rows cols + 10))%Q
    else cursorY in
  (paging ++ header ++ border ++ grid, cursorY).

(** [cards.forEach], from the card at [index] on. *)
Fixpoint drawCards (rows cols : Z) (total : nat)
    (cards : list BingoCardData.t) (index : nat) (cursorY : Q)
    : list DocCall :=
  match cards with
  | [] => []
  | card :: rest =>
      let '(calls, cursorY) := drawCard rows cols total card index cursorY in
      calls ++ drawCards rows cols total rest (S index) cursorY
  end.

Definition generateNativePDF (s : AppState) : list DocCall :=
  let cols := gridCols s in
  let rows := gridRows s in
  let cursorY := 30%Q in
  [setFontSize 24%Q;
   setTextColor [49; 46; 129];
   setFont (js "helvetica") (js "bold");
   text (js "Bingo: " ++ SubjectContext.subject (subjectContext s))
     (pageWidth / 2)%Q 20%Q (js "center") None]
  ++ drawCards rows cols (length (cards s)) (cards s) 0 cursorY.

End NativePDF.

(** The cards of a document: for every filled rectangle (the card header),
    the page it is on (counted from [page]) and its top-left corner. *)
Fixpoint frames (page : nat) (doc : list DocCall) : list (nat * Q * Q) :=
  match doc with
  | [] => []
  | addPage :: rest => frames (S page) rest
  | rect x y _ _ (Some _) :: rest => (page, x, y) :: frames page rest
  | _ :: rest => frames page rest
  end.

(** A wrapping that never splits. *)
Definition one_line (_ : Q) (s : js_string) (_ : Q) : list js_string := [s].

(** A call that neither starts a page nor fills a rectangle. *)
Definition quiet (call : DocCall) : Prop :=
  match call with
  | addPage | rect _ _ _ _ (Some _) => False
  | _ => True
  end.

(** A card of height [H] with its top-left corner at [f] lies between the
    left and right margins, at least 20 mm from the top of the page and 10
    mm from its bottom. *)
Definition on_page (H : Q) (f : nat * Q * Q) : Prop :=
  let '(_, x, y) := f in
  (margin <= x /\ x + cardWidth <= pageWidth - margin /\
   20 <= y /\ y + H <= pageHeight - margin)%Q.

(** Two cards of height [H], [f] drawn before [g]: [g] is on a later page,
    or to the right of [f] at the same height with the gap between them, or
    below [f] with 10 mm between them. *)
Definition separated (H : Q) (f g : nat * Q * Q) : Prop :=
  let '(pf, xf, yf) := f in
  let '(pg, xg, yg) := g in
  (pf < pg)%nat \/
  pf = pg /\
  ((xf + cardWidth + gap <= xg)%Q /\ yg = yf \/ (yf + H + 10 <= yg)%Q).

(** Where [drawCard] puts the card, and on which page. *)
Definition placement (rows cols : Z) (index : nat) (cursorY : Q) (page : nat)
    : nat * Q * Q :=
  let colIndex := (index mod 2)%nat in
  let newPage :=
    (colIndex =? 0)%nat
    && Qgtb (cursorY + totalCardHeight rows cols)%Q (pageHeight - margin)%Q in
  (if newPage then S page else page,
   (margin + inject_Z (Z.of_nat colIndex) * (cardWidth + gap))%Q,
   if newPage then (margin + 10)%Q else cursorY).

(** What the cards drawn after a given point of [cards.forEach] obey: when
    the next card is at [index] and the cursor at [cursorY] on [page], a
    later card is on a later page, or not above the cursor; and when [index]
    is odd it is the right-hand card at the cursor or a full card height,
    plus 10 mm, below it. *)
Definition below (H : Q) (index : nat) (cursorY : Q) (page : nat)
    (g : nat * Q * Q) : Prop :=
  let '(pg, xg, yg) := g in
  (page <= pg)%nat /\
  (pg = page ->
   (cursorY <= yg)%Q /\
   ((index mod 2)%nat = 1%nat ->
    yg = cursorY /\ (margin + cardWidth + gap <= xg)%Q \/
    (cursorY + H + 10 <= yg)%Q)).

(** The wrapped texts of a document: the lines of every [text] call that
    is given an array of lines, in order. *)
Fixpoint drawn_lines (doc : list DocCall) : list (list js_string) :=
  match doc with
  | [] => []
  | textLines lines _ _ _ :: rest => lines :: drawn_lines rest
  | _ :: rest => drawn_lines rest
  end.

(** The answer of an item, wrapped for a cell of a grid of [cols] columns. *)
Definition wrapped_answer
    (splitTextToSize : Q -> js_string -> Q -> list js_string) (cols : Z)
    (item : BingoItem.t) : list js_string :=
  splitTextToSize (answerFontSize (BingoItem.answer item))
    (BingoItem.answer item) (cellWidth cols - 4)%Q.

(** * Properties *)

(** ** Binomial coefficients *)

Lemma choose_0 (n : nat) : choose n 0 = 1%nat.
Proof. destruct n; reflexivity. Qed.

Lemma choose_gt (n k : nat) : (n < k)%nat -> choose n k = 0%nat.
Proof.
  revert k. induction n as [|n IH]; intros [|k] Hlt; simpl; try lia.
  rewrite !IH by lia. reflexivity.
Qed.

Lemma choose_diag (n : nat) : choose n n = 1%nat.
Proof.
  induction n as [|n IH]; simpl; [reflexivity|].
  rewrite IH, choose_gt by lia. reflexivity.
Qed.

Lemma choose_mono (n n' k : nat) :
  (n <= n')%nat -> (choose n k <= choose n' k)%nat.
Proof.
  induction 1 as [|m _ IH]; [lia|].
  destruct k as [|k]; [rewrite !choose_0; lia|].
  change (choose (S m) (S k)) with (choose m k + choose m (S k))%nat. lia.
Qed.

(** ** [getCombinations] and the binomial coefficients *)

Lemma Qgtb_half (r n : Z) : Qgtb (inject_Z r) (inject_Z n / 2) = (n <? 2 * r).
Proof.
  unfold Qgtb, Qle_bool, Qdiv, Qmult, Qinv, inject_Z.
  cbn -[Z.mul Z.leb Z.ltb].
  destruct (_ <=? _) eqn:Hle; destruct (_ <? _) eqn:Hlt;
    try reflexivity; exfalso.
  - apply Z.leb_le in Hle. apply Z.ltb_lt in Hlt. lia.
  - apply Z.leb_gt in Hle. apply Z.ltb_ge in Hlt. lia.
Qed.

Lemma getCombinations_gt (n r : Z) : n < r -> getCombinations n r = 0.
Proof.
  intros Hlt. unfold getCombinations.
  destruct (Z.gtb_spec r n); [reflexivity|lia].
Qed.

Lemma getCombinations_diag (n : Z) : getCombinations n n = 1.
Proof.
  unfold getCombinations. rewrite Z.eqb_refl, orb_true_r.
  destruct (Z.gtb_spec n n); [lia|reflexivity].
Qed.

(** The number of iterations the loop makes for [0 < r < n]. *)
Lemma getCombinations_inner (n r : Z) :
  0 < r < n ->
  getCombinations n r
  = Math_round_double
      (getCombinations_loop (Z.to_nat (Z.min r (n - r))) n 1 (Number.of_Z 1)).
Proof.
  intros Hr. unfold getCombinations.
  destruct (Z.gtb_spec r n) as [?|_]; [lia|].
  destruct (Z.eqb_spec r 0) as [?|_]; [lia|].
  destruct (Z.eqb_spec r n) as [?|_]; [lia|].
  cbn [orb]. rewrite Qgtb_half.
  destruct (Z.ltb_spec n (2 * r)); do 3 f_equal; lia.
Qed.

(** [getCombinations n r = getCombinations n (n - r)]: the code itself
    replaces [r] by [n - r] when [r] is above [n / 2]. *)
Lemma getCombinations_sym (n r : Z) :
  0 <= r <= n -> getCombinations n r = getCombinations n (n - r).
Proof.
  intros Hr.
  destruct (Z.eq_dec r 0) as [->|Hr0].
  { rewrite Z.sub_0_r, getCombinations_diag. unfold getCombinations.
    destruct (Z.gtb_spec 0 n); [lia|reflexivity]. }
  destruct (Z.eq_dec r n) as [->|Hrn].
  { rewrite Z.sub_diag, getCombinations_diag. unfold getCombinations.
    destruct (Z.gtb_spec 0 n); [lia|reflexivity]. }
  rewrite !getCombinations_inner by lia. do 3 f_equal. lia.
Qed.

(** *** Pascal's triangle *)

Lemma next_row_nth (prev : Z) (row : list Z) (k : nat) :
  nth k (next_row prev row) 0 = nth k (prev :: row) 0 + nth k row 0.
Proof.
  revert prev k. induction row as [|x rest IH]; intros prev k.
  - destruct k as [|[|k]]; cbn; lia.
  - destruct k as [|k]; [reflexivity|].
    cbn [next_row nth]. rewrite IH. reflexivity.
Qed.

Lemma next_row_length (prev : Z) (row : list Z) :
  length (next_row prev row) = S (length row).
Proof.
  revert prev. induction row as [|x rest IH]; intros prev; [reflexivity|].
  cbn [next_row length]. rewrite IH. reflexivity.
Qed.

Lemma pascal_length (n : nat) : length (pascal n) = S n.
Proof.
  induction n as [|n IH]; [reflexivity|].
  cbn [pascal]. rewrite next_row_length, IH. reflexivity.
Qed.

(** The rows are the binomial coefficients of the specification. *)
Lemma pascal_nth (n k : nat) : nth k (pascal n) 0 = Z.of_nat (choose n k).
Proof.
  revert k. induction n as [|n IH]; intros k.
  - destruct k as [|[|k]]; reflexivity.
  - cbn [pascal]. rewrite next_row_nth.
    destruct k as [|k].
    + cbn [nth]. rewrite IH, !choose_0. reflexivity.
    + cbn [nth]. rewrite !IH. cbn [choose]. lia.
Qed.

(** *** The rows of [getCombinations] *)

Lemma accumulators_length (steps : nat) (n i : Z) (res : Number.t) :
  length (accumulators steps n i res) = S steps.
Proof.
  revert i res. induction steps as [|steps IH]; intros i res; [reflexivity|].
  cbn [accumulators length]. rewrite IH. reflexivity.
Qed.

Lemma accumulators_nth (steps j : nat) (n i : Z) (res d : Number.t) :
  (j <= steps)%nat ->
  nth j (accumulators steps n i res) d = getCombinations_loop j n i res.
Proof.
  revert j i res. induction steps as [|steps IH]; intros j i res Hj.
  - replace j with 0%nat by lia. reflexivity.
  - destruct j as [|j]; [reflexivity|].
    cbn [accumulators nth getCombinations_loop]. apply IH. lia.
Qed.

Lemma combinations_row_length (n : nat) : length (combinations_row n) = S n.
Proof.
  unfold combinations_row. cbv zeta. rewrite length_map, length_seq.
  reflexivity.
Qed.

Lemma combinations_row_nth (n r : nat) :
  (r <= n)%nat ->
  nth r (combinations_row n) 0 = getCombinations (Z.of_nat n) (Z.of_nat r).
Proof.
  intros Hr. unfold combinations_row. cbv zeta.
  set (rounded := map Math_round_double _).
  rewrite (nth_indep _ 0
             ((fun r => nth (Nat.min r (n - r)) rounded 0) 0%nat))
    by (rewrite length_map, length_seq; lia).
  rewrite (map_nth (fun r => nth (Nat.min r (n - r)) rounded 0)).
  rewrite seq_nth by lia. cbn [Nat.add]. subst rounded.
  change 0 with (Math_round_double S754_nan) at 1.
  rewrite map_nth.
  assert (Hhalf : (Nat.min r (n - r) <= n / 2)%nat).
  { pose proof (Nat.div_mod_eq n 2) as Hdiv.
    pose proof (Nat.mod_upper_bound n 2). lia. }
  rewrite accumulators_nth by exact Hhalf.
  destruct (Nat.eq_dec r 0%nat) as [->|Hr0].
  { unfold getCombinations. change (Z.of_nat 0) with 0.
    destruct (Z.gtb_spec 0 (Z.of_nat n)); [lia|reflexivity]. }
  destruct (Nat.eq_dec r n) as [->|Hrn].
  { rewrite getCombinations_diag, Nat.sub_diag, Nat.min_0_r. reflexivity. }
  rewrite getCombinations_inner by lia. do 2 f_equal. lia.
Qed.

Lemma all2_nth (f : Z -> Z -> bool) (l l' : list Z) (k : nat) :
  all2 f l l' = true ->
  (k < length l)%nat -> (k < length l')%nat ->
  f (nth k l 0) (nth k l' 0) = true.
Proof.
  revert l' k. induction l as [|a l IH]; intros [|b l'] k Hall Hk Hk';
    cbn [length] in *; try lia.
  cbn [all2] in Hall. apply andb_true_iff in Hall as [Hab Hall].
  destruct k as [|k]; [exact Hab|]. cbn [nth]. apply IH; [exact Hall|lia|lia].
Qed.

Lemma check_rows_spec (count n j : nat) :
  check_rows count n (pascal n) (combinations_row n) = true ->
  (j <= count)%nat ->
  all2 (exact_or_large (n + j)) (combinations_row (n + j)) (pascal (n + j))
  = true /\
  ((j < count)%nat ->
   all2 Z.leb (combinations_row (n + j)) (combinations_row (S (n + j)))
   = true).
Proof.
  revert n j. induction count as [|count IH]; intros n j Hcheck Hj.
  - replace j with 0%nat by lia. rewrite Nat.add_0_r.
    cbn [check_rows] in Hcheck. apply andb_true_iff in Hcheck as [H _].
    split; [exact H|lia].
  - cbn [check_rows] in Hcheck.
    apply andb_true_iff in Hcheck as [Hexact Hcheck].
    apply andb_true_iff in Hcheck as [Hle Hrest].
    destruct j as [|j].
    + rewrite Nat.add_0_r. split; [exact Hexact|intros _; exact Hle].
    + change (next_row 0 (pascal n)) with (pascal (S n)) in Hrest.
      destruct (IH (S n) j Hrest ltac:(lia)) as [H1 H2].
      rewrite <- Nat.add_succ_comm. split; [exact H1|].
      intros Hlt. apply H2. lia.
Qed.

(** Every pool of up to 100 items, with every number of items per card. *)
Lemma rows_checked : check_rows 100 0 (pascal 0) (combinations_row 0) = true.
Proof. vm_compute. reflexivity. Qed.

Lemma getCombinations_exact_or_large (n r : nat) :
  (r <= n <= 100)%nat ->
  exact_or_large n (getCombinations (Z.of_nat n) (Z.of_nat r))
    (Z.of_nat (choose n r)) = true.
Proof.
  intros Hr.
  destruct (check_rows_spec 100 0 n rows_checked ltac:(lia)) as [Hexact _].
  cbn [Nat.add] in Hexact.
  rewrite <- combinations_row_nth, <- pascal_nth by lia.
  apply all2_nth; [exact Hexact| |].
  - rewrite combinations_row_length. lia.
  - rewrite pascal_length. lia.
Qed.

Lemma getCombinations_step_mono (n k : nat) :
  (k <= n < 100)%nat ->
  getCombinations (Z.of_nat n) (Z.of_nat k)
  <= getCombinations (Z.of_nat (S n)) (Z.of_nat k).
Proof.
  intros Hk.
  destruct (check_rows_spec 100 0 n rows_checked ltac:(lia)) as [_ Hle].
  cbn [Nat.add] in Hle. specialize (Hle ltac:(lia)).
  rewrite <- !combinations_row_nth by lia.
  apply Z.leb_le. apply all2_nth; [exact Hle| |].
  - rewrite combinations_row_length. lia.
  - rewrite combinations_row_length. lia.
Qed.

(** Where [getCombinations] is the binomial coefficient, and what is left
    where it is not: both numbers are then at least [first_inexact]. *)
Lemma getCombinations_choose (n r : Z) :
  0 <= r <= n -> n <= 100 ->
  let c := Z.of_nat (choose (Z.to_nat n) (Z.to_nat r)) in
  getCombinations n r = c \/
  56 <= n /\ first_inexact <= getCombinations n r /\ first_inexact <= c.
Proof.
  intros Hr Hn c. subst c.
  pose proof (getCombinations_exact_or_large (Z.to_nat n) (Z.to_nat r)
                ltac:(lia)) as H.
  rewrite !Z2Nat.id in H by lia. unfold exact_or_large in H.
  apply orb_true_iff in H as [H|H].
  - left. apply Z.eqb_eq. exact H.
  - right. apply andb_true_iff in H as [H Hc].
    apply andb_true_iff in H as [H56 Hg].
    apply Nat.leb_le in H56. apply Z.leb_le in Hg, Hc. lia.
Qed.

Lemma getCombinations_nonneg (n r : Z) :
  0 <= r -> n <= 100 -> 0 <= getCombinations n r.
Proof.
  intros Hr Hn.
  destruct (Z_lt_le_dec n r) as [Hlt|Hle];
    [rewrite getCombinations_gt by lia; lia|].
  destruct (getCombinations_choose n r ltac:(lia) Hn) as [->|(_ & H & _)];
    [lia|]. unfold first_inexact in H. lia.
Qed.

Lemma getCombinations_mono (n n' k : Z) :
  0 <= k -> n <= n' -> n' <= 100 ->
  getCombinations n k <= getCombinations n' k.
Proof.
  intros Hk Hnn' Hn'.
  destruct (Z_lt_le_dec n k) as [Hlt|Hle].
  { rewrite (getCombinations_gt n k) by lia.
    apply getCombinations_nonneg; assumption. }
  rewrite <- (Z2Nat.id n), <- (Z2Nat.id n'), <- (Z2Nat.id k) by lia.
  assert (Hnat : (Z.to_nat k <= Z.to_nat n <= Z.to_nat n')%nat) by lia.
  assert (Hcap : (Z.to_nat n' <= 100)%nat) by lia.
  generalize dependent (Z.to_nat n'). intros b.
  generalize (Z.to_nat n) (Z.to_nat k). clear. intros a c.
  induction b as [|b IH]; intros Hnat Hcap.
  - replace a with 0%nat by lia. lia.
  - destruct (Nat.eq_dec a (S b)) as [->|Hne]; [lia|].
    etransitivity; [apply IH; lia|].
    apply getCombinations_step_mono. lia.
Qed.

(** ** The pool-size search *)

Lemma minPool_loop_spec (k c m : Z) :
  m <= minPool_loop k c m <= ceiling_exit m /\
  (c <= getCombinations (minPool_loop k c m) k /\
   minPool_loop k c m <= Z.max m 100 \/
   minPool_loop k c m = ceiling_exit m) /\
  (forall x, m <= x < minPool_loop k c m -> getCombinations x k < c).
Proof.
  unfold ceiling_exit.
  functional induction (minPool_loop k c m);
    repeat match goal with
    | H : (_ >=? _) = true |- _ => apply Z.geb_le in H
    | H : (_ >=? _) = false |- _ => rewrite Z.geb_leb in H; apply Z.leb_gt in H
    | H : (_ >? _) = true |- _ => rewrite Z.gtb_ltb in H; apply Z.ltb_lt in H
    | H : (_ >? _) = false |- _ => rewrite Z.gtb_ltb in H; apply Z.ltb_ge in H
    end.
  - repeat split; lia.
  - repeat split; try lia.
    intros x Hx. replace x with calculatedMinPool0 by lia. assumption.
  - destruct IHz as ([IH1 IH2] & IH3 & IH4).
    repeat split; try lia.
    intros x Hx.
    destruct (Z.eq_dec x calculatedMinPool0) as [->|Hne]; [assumption|].
    apply IH4. lia.
Qed.

Lemma calculatedMinPool_spec (gridRows gridCols cardCount : Z) :
  let k := gridRows * gridCols in
  let m := calculatedMinPool gridRows gridCols cardCount in
  k <= m <= ceiling_exit k /\
  (cardCount <= getCombinations m k /\ m <= Z.max k 100 \/
   m = ceiling_exit k) /\
  (forall x, k <= x < m -> getCombinations x k < cardCount).
Proof. apply minPool_loop_spec. Qed.

(** The first candidate is accepted exactly when one card is enough. *)
Lemma calculatedMinPool_start (gridRows gridCols cardCount : Z) :
  calculatedMinPool gridRows gridCols cardCount = gridRows * gridCols ->
  cardCount <= 1.
Proof.
  intros Heq.
  destruct (calculatedMinPool_spec gridRows gridCols cardCount)
    as (_ & [[Hok _]|Hcap] & _).
  - rewrite Heq, getCombinations_diag in Hok. exact Hok.
  - rewrite Heq in Hcap. unfold ceiling_exit in Hcap. lia.
Qed.

(** The searches started from the form (grids of 3 to 5 rows and columns,
    up to 100 cards) stay within three items of the grid size. *)
Lemma form_search_stops_early (gridRows gridCols cardCount : Z) :
  3 <= gridRows <= 5 -> 3 <= gridCols <= 5 -> cardCount <= 100 ->
  calculatedMinPool gridRows gridCols cardCount <= gridRows * gridCols + 3.
Proof.
  intros Hrows Hcols Hcount.
  destruct (calculatedMinPool_spec gridRows gridCols cardCount)
    as ([Hlo _] & _ & Hmin).
  destruct (Z_le_gt_dec (calculatedMinPool gridRows gridCols cardCount)
              (gridRows * gridCols + 3)) as [Hle|Hgt]; [exact Hle|].
  specialize (Hmin (gridRows * gridCols + 3) ltac:(lia)).
  assert (Hbig : 100 <= getCombinations (gridRows * gridCols + 3)
                          (gridRows * gridCols)).
  { assert (Hr : gridRows = 3 \/ gridRows = 4 \/ gridRows = 5) by lia.
    assert (Hc : gridCols = 3 \/ gridCols = 4 \/ gridCols = 5) by lia.
    destruct Hr as [-> | [-> | ->]], Hc as [-> | [-> | ->]];
      vm_compute; discriminate. }
  lia.
Qed.

(** Up to [first_inexact] cards, a candidate of the search passes the test
    [combinations >= cardCount] exactly when it has that many
    combinations. *)
Lemma enough_combinations (x k cardCount : Z) :
  0 <= k <= x -> x <= 100 -> cardCount <= first_inexact ->
  cardCount <= getCombinations x k <->
  cardCount <= Z.of_nat (choose (Z.to_nat x) (Z.to_nat k)).
Proof.
  intros Hk Hx Hcount.
  destruct (getCombinations_choose x k Hk Hx) as [->|(_ & Hg & Hc)];
    [reflexivity|]. split; intros _; lia.
Qed.

(** A search that is not stopped by its ceiling ends on a candidate that
    [enough_combinations] speaks about, or on a full grid for one card. *)
Lemma calculatedMinPool_in_range (gridRows gridCols cardCount : Z) :
  let k := gridRows * gridCols in
  let m := calculatedMinPool gridRows gridCols cardCount in
  m <> ceiling_exit k ->
  cardCount <= getCombinations m k /\
  (m <= 100 \/ m = k /\ cardCount <= 1).
Proof.
  intros k m Hnocap.
  destruct (calculatedMinPool_spec gridRows gridCols cardCount)
    as ([Hlo _] & [[Hok Hle]|Hcap] & _); [|contradiction].
  fold k m in Hlo, Hok, Hle. split; [exact Hok|].
  destruct (Z_le_gt_dec m 100) as [?|Hgt]; [left; assumption|right].
  assert (Heq : m = k) by lia. split; [exact Heq|].
  rewrite Heq, getCombinations_diag in Hok. exact Hok.
Qed.




(** ** The text-versus-math heuristic *)

(** C3. The classification is a function of the string alone, and the copy
    in [App] (calling list) and the copy in [BingoCard] (card view) return
    the same boolean on every string. *)
Theorem shouldRenderAsText_copies_agree (content : js_string) :
  App.shouldRenderAsText content = BingoCard.shouldRenderAsText content.
Proof. reflexivity. Qed.

Lemma existsb_false_Forall {A} (P : A -> Prop) (f : A -> bool) (l : list A) :
  (forall x, P x -> f x = false) -> Forall P l -> existsb f l = false.
Proof.
  intros Hf. induction 1 as [|x l Hx _ IH]; simpl; [reflexivity|].
  rewrite (Hf x Hx), IH. reflexivity.
Qed.

Lemma existsb_true_elem {A} (f : A -> bool) (l : list A) (x : A) :
  x ∈ l -> f x = true -> existsb f l = true.
Proof.
  intros Hin Hfx. apply existsb_exists. exists x.
  split; [apply list_elem_of_In; exact Hin|exact Hfx].
Qed.

Ltac class_to_prop :=
  unfold is_text_char, class_matches, text_class, markup_class, item_matches,
    is_white_space; simpl;
  rewrite ?orb_true_iff, ?andb_true_iff, ?orb_false_iff, ?andb_false_iff,
    ?N.leb_le, ?N.leb_gt, ?N.eqb_eq, ?N.eqb_neq.

Lemma text_char_not_markup (c : N) :
  is_text_char c -> class_matches markup_class c = false.
Proof. class_to_prop. lia. Qed.

Lemma text_char_not_digit (c : N) :
  is_text_char c -> class_matches [Digit] c = false.
Proof. class_to_prop. lia. Qed.

Lemma markup_matches (c : N) :
  is_markup c -> class_matches markup_class c = true.
Proof.
  unfold is_markup. rewrite !elem_of_cons, elem_of_nil.
  intros H. class_to_prop. lia.
Qed.

Lemma digit_matches (c : N) : is_digit c -> class_matches [Digit] c = true.
Proof. unfold is_digit. class_to_prop. lia. Qed.

Lemma shouldRenderAsText_markup_or_digit (content : js_string) (c : N) :
  c ∈ content -> is_markup c \/ is_digit c ->
  BingoCard.shouldRenderAsText content = false.
Proof.
  intros Hin Hc. unfold BingoCard.shouldRenderAsText.
  destruct content as [|c0 rest]; [inversion Hin|].
  cbn [truthy negb].
  destruct (test_some markup_class (c0 :: rest)) eqn:Hm; [reflexivity|].
  destruct Hc as [Hc|Hc].
  - apply markup_matches in Hc.
    unfold test_some in Hm. rewrite (existsb_true_elem _ _ c Hin Hc) in Hm.
    discriminate.
  - apply digit_matches in Hc.
    unfold test_some. rewrite (existsb_true_elem _ _ c Hin Hc). reflexivity.
Qed.

Lemma shouldRenderAsText_short (content : js_string) :
  content <> [] -> (length content <= 2)%nat ->
  BingoCard.shouldRenderAsText content = false.
Proof.
  intros Hne Hlen. unfold BingoCard.shouldRenderAsText.
  destruct content as [|c0 rest]; [contradiction|].
  cbn [truthy negb].
  destruct (test_some markup_class _); [reflexivity|].
  destruct (test_some [Digit] _); [reflexivity|].
  apply Nat.leb_le in Hlen. rewrite Hlen. reflexivity.
Qed.

Lemma shouldRenderAsText_text (content : js_string) :
  (2 < length content)%nat -> Forall is_text_char content ->
  BingoCard.shouldRenderAsText content = true.
Proof.
  intros Hlen Hall. unfold BingoCard.shouldRenderAsText.
  destruct content as [|c0 rest]; [reflexivity|].
  cbn [truthy negb]. unfold test_some.
  rewrite (existsb_false_Forall _ _ _ text_char_not_markup Hall).
  rewrite (existsb_false_Forall _ _ _ text_char_not_digit Hall).
  apply Nat.leb_gt in Hlen. rewrite Hlen.
  unfold test_all. apply forallb_forall.
  intros c Hc. apply list_elem_of_In in Hc.
  rewrite Forall_forall in Hall. exact (Hall c Hc).
Qed.

(** C4, as the source has it.  A string that contains a markup character
    (backslash, =, braces, caret, underscore) or a digit is math.  A string
    of one or two code units is math; the empty string is text.  A string of
    three or more code units, each of them a letter a-z or A-Z, a character
    in U+00C0-U+00FF, white space, or a full stop, comma, question mark,
    exclamation mark, apostrophe, double quote or hyphen, is text.  Both
    copies of the heuristic behave so. *)
Theorem shouldRenderAsText_cases :
  (forall content c, c ∈ content -> is_markup c \/ is_digit c ->
     BingoCard.shouldRenderAsText content = false /\
     App.shouldRenderAsText content = false) /\
  (forall content, content <> [] -> (length content <= 2)%nat ->
     BingoCard.shouldRenderAsText content = false /\
     App.shouldRenderAsText content = false) /\
  (BingoCard.shouldRenderAsText [] = true /\
   App.shouldRenderAsText [] = true) /\
  (forall content, (2 < length content)%nat -> Forall is_text_char content ->
     BingoCard.shouldRenderAsText content = true /\
     App.shouldRenderAsText content = true).
Proof.
  repeat split; intros;
    change App.shouldRenderAsText with BingoCard.shouldRenderAsText;
    eauto using shouldRenderAsText_markup_or_digit,
      shouldRenderAsText_short, shouldRenderAsText_text.
Qed.

Lemma shouldRenderAsText_cases_witness :
  BingoCard.shouldRenderAsText (js "2x") = false /\
  BingoCard.shouldRenderAsText (js "x") = false /\
  BingoCard.shouldRenderAsText (js "Herleid") = true.
Proof.
  destruct shouldRenderAsText_cases as (Hmath & Hshort & _ & Htext).
  split; [|split].
  - apply (Hmath (js "2x") 50%N);
      [apply list_elem_of_In; simpl; auto|right; unfold is_digit; lia].
  - apply (Hshort (js "x")); [discriminate|simpl; lia].
  - apply (Htext (js "Herleid")); [simpl; lia|].
    repeat constructor.
Defined.

(** The claim as the specification words it fails: the empty string has
    length at most 2 and is text; "ab" is made of letters only and is math;
    and "ja; nee" is made of letters, a space and a punctuation mark, yet is
    not text, the semicolon being outside the class of the last test. *)
Lemma shouldRenderAsText_short_and_letters_counterexample :
  ((length (js "") <= 2)%nat /\
   BingoCard.shouldRenderAsText (js "") = true /\
   App.shouldRenderAsText (js "") = true) /\
  (Forall (fun c => (97 <= c <= 122)%N) (js "ab") /\
   BingoCard.shouldRenderAsText (js "ab") = false /\
   App.shouldRenderAsText (js "ab") = false) /\
  (Forall (fun c => (97 <= c <= 122)%N \/ c = 32%N \/ c = 59%N)
     (js "ja; nee") /\
   BingoCard.shouldRenderAsText (js "ja; nee") = false /\
   App.shouldRenderAsText (js "ja; nee") = false).
Proof.
  split; [repeat split; try reflexivity; simpl; lia|].
  split; (split; [|split; reflexivity]).
  - change (js "ab") with [97; 98]%N.
    repeat (constructor; [lia|]). constructor.
  - change (js "ja; nee") with [106; 97; 59; 32; 110; 101; 101]%N.
    repeat (constructor; [lia|]). constructor.
Qed.

(** ** Shuffling *)

Lemma insert_swap_head {T} (l : list T) (j : nat) (a y : T) :
  l !! j = Some y -> y :: <[j := a]> l ≡ₚ a :: l.
Proof.
  revert j. induction l as [|b l IH]; intros [|j] Hj; simplify_eq/=.
  - apply perm_swap.
  - rewrite perm_swap, (IH j Hj). apply perm_swap.
Qed.

Lemma swap_Permutation {T} (arr : list T) (i j : nat) :
  (i < length arr)%nat -> (j < length arr)%nat -> swap arr i j ≡ₚ arr.
Proof.
  intros Hi Hj. unfold swap.
  destruct (lookup_lt_is_Some_2 arr i Hi) as [x Hx].
  destruct (lookup_lt_is_Some_2 arr j Hj) as [y Hy].
  rewrite Hx, Hy. clear Hi Hj. rename Hx into Hi, Hy into Hj.
  revert i j Hi Hj. induction arr as [|a l IH]; intros [|i] [|j] Hi Hj;
    simplify_eq/=.
  - reflexivity.
  - apply insert_swap_head. exact Hj.
  - apply insert_swap_head. exact Hi.
  - f_equiv. apply IH; assumption.
Qed.


Section Shuffle.
Variable random : nat -> Q.
Hypothesis random_unit : unit_interval random.

(** With [Math.random] in [0, 1) the drawn position is one of [0..i], so
    every swap of [shuffleArray] stays inside the array. *)
Lemma randomIndex_le (rng i : nat) : (randomIndex random rng i <= i)%nat.
Proof.
  destruct (random_unit rng) as [H0 H1]. unfold randomIndex.
  set (b := inject_Z (Z.of_nat i + 1)).
  assert (Hb : (0 < b)%Q).
  { unfold b. rewrite <- (Zlt_Qlt 0). lia. }
  assert (Hlt : (random rng * b < b)%Q).
  { rewrite <- (Qmult_1_l b) at 2. apply Qmult_lt_compat_r; assumption. }
  assert (Hfl : Qfloor (random rng * b) < Z.of_nat i + 1).
  { rewrite Zlt_Qlt. eapply Qle_lt_trans; [apply Qfloor_le|exact Hlt]. }
  lia.
Qed.

Lemma shuffleArray_loop_Permutation {T} (i : nat) (arr : list T) (rng : nat) :
  (i < length arr)%nat \/ i = 0%nat ->
  (shuffleArray_loop random i arr rng).1 ≡ₚ arr.
Proof.
  revert arr rng. induction i as [|i IH]; intros arr rng Hi; simpl.
  - reflexivity.
  - destruct Hi as [Hi|?]; [|discriminate].
    pose proof (randomIndex_le rng (S i)) as Hj.
    assert (Hswap : swap arr (S i) (randomIndex random rng (S i)) ≡ₚ arr)
      by (apply swap_Permutation; lia).
    rewrite IH; [exact Hswap|].
    left. rewrite (Permutation_length Hswap). lia.
Qed.


(** The shuffle returns a rearrangement of its argument. *)
Lemma shuffleArray_Permutation {T} (array : list T) (rng : nat) :
  (shuffleArray random array rng).1 ≡ₚ array.
Proof.
  apply shuffleArray_loop_Permutation.
  destruct array; simpl; [right; reflexivity|left; lia].
Qed.


End Shuffle.

Lemma Array_slice_prefix {T} (arr : list T) (n : Z) :
  0 <= n <= Z.of_nat (length arr) ->
  Array_slice arr 0 n = take (Z.to_nat n) arr.
Proof.
  intros Hn. unfold Array_slice, relative_index.
  destruct (Z.ltb_spec n 0) as [?|_]; [lia|]. simpl.
  rewrite Z.min_l, Z.min_l, Z.sub_0_r by lia. reflexivity.
Qed.

(** ** Card generation *)


Section Cards.
Variable random : nat -> Q.
Hypothesis random_unit : unit_interval random.

(** With enough items every iteration adds a valid card. *)
Lemma generateCards_loop_enough (pool : list BingoItem.t) (n : Z) :
  0 <= n <= Z.of_nat (length pool) ->
  forall steps i newCards rng,
  exists added rng',
    generateCards_loop random steps i pool n newCards rng
      = (Some (newCards ++ added), rng') /\
    length added = steps /\
    Forall (valid_card pool n) added /\
    (forall p card, added !! p = Some card ->
       BingoCardData.id card = i + Z.of_nat p).
Proof.
  intros Hn. induction steps as [|steps IH]; intros i newCards rng.
  - exists [], rng. rewrite app_nil_r. repeat split; [constructor|].
    intros p card Hp. discriminate.
  - simpl. destruct (shuffleArray random pool rng) as [shuffled rng1] eqn:Hsh.
    assert (Hperm : shuffled ≡ₚ pool).
    { pose proof (shuffleArray_Permutation random random_unit pool rng) as H.
      rewrite Hsh in H. exact H. }
    assert (Hlen : length shuffled = length pool)
      by (apply Permutation_length; exact Hperm).
    destruct (Z.ltb_spec (Z.of_nat (length shuffled)) n) as [?|_]; [lia|].
    set (card := BingoCardData.mk i (map Item (Array_slice shuffled 0 n))).
    destruct (IH (i + 1) (newCards ++ [card]) rng1)
      as (added & rng' & Heq & Hadded & Hvalid & Hids).
    exists (card :: added), rng'. repeat split.
    + rewrite Heq, <- app_assoc. reflexivity.
    + simpl. lia.
    + constructor; [|exact Hvalid].
      exists (Array_slice shuffled 0 n). split; [reflexivity|].
      rewrite Array_slice_prefix by lia. split.
      * rewrite length_take. lia.
      * rewrite <- Hperm. apply sublist_submseteq, sublist_take.
    + intros [|p] c Hp; simplify_eq/=; [lia|].
      rewrite (Hids p c Hp). lia.
Qed.


Lemma generateCards_enough (pool : list BingoItem.t) (count : Z) (w : World) :
  let n := gridRows (app w) * gridCols (app w) in
  0 <= n <= Z.of_nat (length pool) ->
  exists newCards rng',
    generateCards random pool count w
      = mkWorld (with_cards newCards (app w)) rng' (events w) /\
    length newCards = Z.to_nat count /\
    Forall (valid_card pool n) newCards /\
    (forall p card, newCards !! p = Some card ->
       BingoCardData.id card = 1 + Z.of_nat p).
Proof.
  intros n Hn. unfold generateCards. fold n.
  destruct (generateCards_loop_enough pool n Hn (Z.to_nat count) 1 [] (rng w))
    as (added & rng' & Heq & Hlen & Hvalid & Hids).
  rewrite Heq. exists added, rng'. repeat split; assumption.
Qed.



End Cards.

Section CardProperties.
Variable random : nat -> Q.
Hypothesis random_unit : unit_interval random.




End CardProperties.

Lemma random7_unit : unit_interval random7.
Proof.
  intros n. unfold random7, Qle, Qlt. simpl.
  pose proof (Nat.mod_upper_bound n 7). lia.
Qed.







(** C9. With an empty topic and no image, [handleStartGeneration] shows the
    alert and nothing else happens: every field of the state, the status
    among them, is what it was, no status is set and the subject detection
    is not called. *)
Theorem handleStartGeneration_without_input
    (detectSubject : js_string -> option js_string -> Outcome SubjectContext.t)
    (w : World) :
  topic (app w) = [] ->
  selectedImage (app w) = None ->
  let w' := handleStartGeneration detectSubject w in
  app w' = app w /\
  status (app w') = status (app w) /\
  rng w' = rng w /\
  events w'
    = events w ++ [Alert (js "Voer een onderwerp in of upload een afbeelding.")]
  /\
  filter is_status_set (events w') = filter is_status_set (events w) /\
  filter is_service_call (events w') = filter is_service_call (events w).
Proof.
  intros Htopic Himage w'. subst w'. unfold handleStartGeneration.
  rewrite Htopic, Himage. cbn [truthy truthy_opt negb andb emit app rng events].
  repeat split; rewrite filter_app; cbn; rewrite app_nil_r; reflexivity.
Qed.

Lemma handleStartGeneration_without_input_witness :
  let w' := handleStartGeneration no_detect fresh_world in
  app w' = app fresh_world /\
  status (app w') = status (app fresh_world) /\
  rng w' = rng fresh_world /\
  events w'
    = events fresh_world
      ++ [Alert (js "Voer een onderwerp in of upload een afbeelding.")]
  /\
  filter is_status_set (events w') = filter is_status_set (events fresh_world)
  /\
  filter is_service_call (events w')
    = filter is_service_call (events fresh_world).
Proof.
  apply (handleStartGeneration_without_input no_detect fresh_world);
    reflexivity.
Defined.

(** With a topic the same handler does set the status and call the
    service. *)
Lemma handleStartGeneration_with_topic :
  let w := update (with_topic (js "Dieren")) fresh_world in
  events (handleStartGeneration no_detect w)
  = [StatusSet DETECTING; DetectSubjectCall (js "Dieren") None;
     ConsoleError (js "offline"); StatusSet ERROR].
Proof. reflexivity. Qed.

(** ** Reshuffling *)

Section Reshuffle.
Variable random : nat -> Q.


End Reshuffle.




(** ** The ceiling of the search and the default configuration *)









(** * Further properties of the code *)

(** ** Combinatorics and the pool-size search *)

(** X1. For pools of up to 55 items [getCombinations] is the binomial
    coefficient, whatever the number of items per card; for pools of up to
    100 items it is whenever the binomial coefficient is below
    3,167,295,784,216,200; and it is 0, like the binomial coefficient, when
    [r] is above [n].  The bound is the first value that is missed:
    3,167,295,784,216,200 is C(56, 23), and there the doubles of the loop
    give one more. *)
Theorem getCombinations_binomial (n r : Z) :
  let c := Z.of_nat (choose (Z.to_nat n) (Z.to_nat r)) in
  0 <= n -> 0 <= r ->
  n < r \/ n <= 55 \/ n <= 100 /\ c < 3167295784216200 ->
  getCombinations n r = c /\
  Z.of_nat (choose 56 23) = 3167295784216200 /\
  getCombinations 56 23 = 3167295784216200 + 1.
Proof.
  intros c Hn Hr Hcase. split.
  - destruct (Z_lt_le_dec n r) as [Hlt|Hle].
    { rewrite getCombinations_gt by exact Hlt. subst c.
      rewrite choose_gt by lia. reflexivity. }
    assert (Hn100 : n <= 100) by lia.
    destruct (getCombinations_choose n r ltac:(lia) Hn100)
      as [Heq|(H56 & _ & Hc)]; [exact Heq|].
    fold c in Hc. unfold first_inexact in Hc. lia.
  - split; [rewrite <- pascal_nth|]; vm_compute; reflexivity.
Qed.

Lemma getCombinations_binomial_witness :
  getCombinations 55 25 = Z.of_nat (choose (Z.to_nat 55) (Z.to_nat 25)) /\
  Z.of_nat (choose 56 23) = 3167295784216200 /\
  getCombinations 56 23 = 3167295784216200 + 1.
Proof. apply (getCombinations_binomial 55 25); lia. Defined.

Lemma choose_pascal (n k : nat) :
  choose (S n) (S k) = (choose n k + choose n (S k))%nat.
Proof. reflexivity. Qed.

(** X2. [getCombinations] is symmetric for every pool,
    [getCombinations n r = getCombinations n (n - r)] for [0 <= r <= n]: the
    code itself turns [r] into [n - r].  It obeys Pascal's rule,
    [C(n + 1, r) = C(n, r - 1) + C(n, r)], for pools of up to 55 items; at
    56 items and 25 per card the rule fails by one. *)
Theorem getCombinations_symmetry_and_pascal (n r : Z) :
  0 <= r ->
  (r <= n -> getCombinations n r = getCombinations n (n - r)) /\
  (0 <= n <= 54 -> 1 <= r ->
   getCombinations (n + 1) r
   = getCombinations n (r - 1) + getCombinations n r) /\
  getCombinations 56 25 = getCombinations 55 24 + getCombinations 55 25 + 1.
Proof.
  intros Hr. split; [|split].
  - intros Hle. apply getCombinations_sym. lia.
  - intros Hn Hr1.
    assert (Hexact : forall a b, 0 <= a <= 55 -> 0 <= b ->
              getCombinations a b
              = Z.of_nat (choose (Z.to_nat a) (Z.to_nat b))).
    { intros a b Ha Hb. destruct (Z_lt_le_dec a b) as [Hlt|Hle].
      - rewrite getCombinations_gt, choose_gt by lia. reflexivity.
      - destruct (getCombinations_choose a b ltac:(lia) ltac:(lia))
          as [Heq|(H56 & _)]; [exact Heq|lia]. }
    rewrite !Hexact by lia.
    replace (Z.to_nat (n + 1)) with (S (Z.to_nat n)) by lia.
    replace (Z.to_nat r) with (S (Z.to_nat (r - 1))) at 1 by lia.
    rewrite choose_pascal.
    replace (S (Z.to_nat (r - 1))) with (Z.to_nat r) by lia. lia.
  - vm_compute. reflexivity.
Qed.

Lemma getCombinations_symmetry_and_pascal_witness :
  getCombinations 13 9 = getCombinations 13 (13 - 9) /\
  getCombinations (13 + 1) 9 = getCombinations 13 (9 - 1) + getCombinations 13 9.
Proof.
  destruct (getCombinations_symmetry_and_pascal 13 9) as (Hsym & Hpascal & _);
    [lia|].
  split; [apply Hsym|apply Hpascal]; lia.
Defined.

(** X3. Among the pools the search evaluates, those of up to 100 items, a
    larger pool never has fewer combinations: for [k >= 0] and
    [n <= n' <= 100], [getCombinations n k <= getCombinations n' k], also
    where the doubles are rounded. *)
Theorem getCombinations_monotone_in_pool (n n' k : Z) :
  0 <= k -> n <= n' -> n' <= 100 ->
  getCombinations n k <= getCombinations n' k.
Proof.
  intros Hk Hnn' Hn'. apply getCombinations_mono; assumption.
Qed.

Lemma getCombinations_monotone_in_pool_witness :
  getCombinations 55 25 <= getCombinations 56 25 /\
  getCombinations 60 25 <= getCombinations 100 25.
Proof.
  split.
  - apply (getCombinations_monotone_in_pool 55 56 25); lia.
  - apply (getCombinations_monotone_in_pool 60 100 25); lia.
Defined.

(** X4. For up to 3,167,295,784,216,200 cards, when the search is not
    stopped by its ceiling, the pool size it computes is the least one,
    from [rows * cols] on, with at least [cardCount] combinations (the
    binomial coefficient C(m, k)), and every larger pool has enough as
    well. *)
Theorem calculatedMinPool_least (gridRows gridCols cardCount : Z) :
  let k := gridRows * gridCols in
  let m := calculatedMinPool gridRows gridCols cardCount in
  let C := fun x => Z.of_nat (choose (Z.to_nat x) (Z.to_nat k)) in
  0 <= k ->
  cardCount <= 3167295784216200 ->
  m <> ceiling_exit k ->
  cardCount <= C m /\
  (forall x, k <= x -> cardCount <= C x -> m <= x) /\
  (forall x, m <= x -> cardCount <= C x).
Proof.
  intros k m C Hk Hcount Hnocap.
  destruct (calculatedMinPool_spec gridRows gridCols cardCount)
    as ([Hlo _] & _ & Hmin). fold k m in Hlo, Hmin.
  destruct (calculatedMinPool_in_range gridRows gridCols cardCount Hnocap)
    as [Hok Hrange]. fold k m in Hok, Hrange.
  assert (Hchoose : cardCount <= C m).
  { subst C. destruct Hrange as [Hle|[Heq Hone]].
    - apply enough_combinations; [lia|exact Hle|exact Hcount|exact Hok].
    - cbv beta. rewrite Heq, choose_diag. exact Hone. }
  split; [exact Hchoose|]. split.
  - intros x Hkx Hx. destruct (Z_le_gt_dec m x) as [?|Hgt]; [assumption|].
    exfalso. specialize (Hmin x ltac:(lia)).
    destruct Hrange as [Hle|[Heq _]]; [|lia].
    apply (enough_combinations x k cardCount) in Hx; [lia|lia|lia|].
    exact Hcount.
  - intros x Hx. etransitivity; [exact Hchoose|]. subst C. cbv beta.
    apply Nat2Z.inj_le, choose_mono. lia.
Qed.

Lemma calculatedMinPool_least_witness :
  let m := calculatedMinPool 3 3 30 in
  let C := fun x => Z.of_nat (choose (Z.to_nat x) (Z.to_nat (3 * 3))) in
  30 <= C m /\
  (forall x, 3 * 3 <= x -> 30 <= C x -> m <= x) /\
  (forall x, m <= x -> 30 <= C x).
Proof.
  apply (calculatedMinPool_least 3 3 30); [lia|lia|].
  vm_compute. discriminate.
Defined.

Lemma calculatedMinPool_mono (gridRows gridCols c c' : Z) :
  c <= c' ->
  calculatedMinPool gridRows gridCols c <= calculatedMinPool gridRows gridCols c'.
Proof.
  intros Hc.
  destruct (calculatedMinPool_spec gridRows gridCols c) as ([_ Hhi] & _ & Hmin).
  destruct (calculatedMinPool_spec gridRows gridCols c')
    as ([Hlo' _] & [[Hok' _]|Hcap'] & _); [|lia].
  destruct (Z_le_gt_dec (calculatedMinPool gridRows gridCols c)
              (calculatedMinPool gridRows gridCols c')) as [?|Hgt];
    [assumption|].
  specialize (Hmin (calculatedMinPool gridRows gridCols c') ltac:(lia)). lia.
Qed.

(** X5. Asking for more cards never lowers the pool size: the computed
    minimum and the suggested minimum are monotone in the card count. *)
Theorem pool_size_monotone_in_cardCount (gridRows gridCols c c' : Z) :
  c <= c' ->
  calculatedMinPool gridRows gridCols c
    <= calculatedMinPool gridRows gridCols c' /\
  suggestedMin gridRows gridCols c <= suggestedMin gridRows gridCols c'.
Proof.
  intros Hc. pose proof (calculatedMinPool_mono gridRows gridCols c c' Hc).
  unfold suggestedMin. split; lia.
Qed.

Lemma pool_size_monotone_in_cardCount_witness :
  calculatedMinPool 3 3 30 <= calculatedMinPool 3 3 100 /\
  suggestedMin 3 3 30 <= suggestedMin 3 3 100.
Proof. apply (pool_size_monotone_in_cardCount 3 3 30 100). lia. Defined.

Lemma calculatedMinPool_one_card (gridRows gridCols cardCount : Z) :
  cardCount <= 1 ->
  calculatedMinPool gridRows gridCols cardCount = gridRows * gridCols.
Proof.
  intros Hc. unfold calculatedMinPool, getItemsPerCard.
  rewrite minPool_loop_equation.
  assert (H1 : getCombinations (gridRows * gridCols) (gridRows * gridCols) = 1).
  { unfold getCombinations. rewrite Z.eqb_refl, orb_true_r.
    destruct (Z.gtb_spec (gridRows * gridCols) (gridRows * gridCols));
      [lia|reflexivity]. }
  rewrite H1. destruct (Z.geb_spec 1 cardCount); [reflexivity|lia].
Qed.

(** X6. The clamp [max(calculatedMinPool, itemsPerCard + 1)] only matters
    for at most one card: then the search stops on [rows * cols] at once and
    the suggested minimum is [rows * cols + 1]; for two or more cards the
    search result is above [rows * cols] and is the suggested minimum
    itself. *)
Theorem suggestedMin_clamp (gridRows gridCols cardCount : Z) :
  let k := gridRows * gridCols in
  (cardCount <= 1 ->
     calculatedMinPool gridRows gridCols cardCount = k /\
     suggestedMin gridRows gridCols cardCount = k + 1) /\
  (1 < cardCount ->
     k < calculatedMinPool gridRows gridCols cardCount /\
     suggestedMin gridRows gridCols cardCount
       = calculatedMinPool gridRows gridCols cardCount).
Proof.
  intros k. split; intros Hc.
  - pose proof (calculatedMinPool_one_card gridRows gridCols cardCount Hc) as H.
    unfold suggestedMin, getItemsPerCard. fold k in H |- *. lia.
  - destruct (calculatedMinPool_spec gridRows gridCols cardCount)
      as ([Hlo _] & _ & _).
    assert (Hne : calculatedMinPool gridRows gridCols cardCount <> k).
    { intros Heq. apply calculatedMinPool_start in Heq. lia. }
    unfold suggestedMin, getItemsPerCard. fold k in Hlo, Hne |- *. lia.
Qed.

Lemma suggestedMin_clamp_witness :
  (calculatedMinPool 4 4 1 = 4 * 4 /\ suggestedMin 4 4 1 = 4 * 4 + 1) /\
  (4 * 4 < calculatedMinPool 4 4 30 /\
   suggestedMin 4 4 30 = calculatedMinPool 4 4 30).
Proof.
  split.
  - apply (suggestedMin_clamp 4 4 1). lia.
  - apply (suggestedMin_clamp 4 4 30). lia.
Defined.

(** X7. For the grids the form offers (3 to 5 rows and columns) and the
    card counts its input allows (1 to 100), the suggested minimum is at
    most three items above the grid size, hence within the maximum of 60
    that the pool-size input accepts. *)
Theorem suggestedMin_fits_the_form (gridRows gridCols cardCount : Z) :
  3 <= gridRows <= 5 -> 3 <= gridCols <= 5 -> 1 <= cardCount <= 100 ->
  gridRows * gridCols + 1 <= suggestedMin gridRows gridCols cardCount
    <= gridRows * gridCols + 3 /\
  suggestedMin gridRows gridCols cardCount <= 60.
Proof.
  intros Hrows Hcols Hcount.
  pose proof (form_search_stops_early gridRows gridCols cardCount
                Hrows Hcols ltac:(lia)) as Hm.
  unfold suggestedMin, getItemsPerCard. nia.
Qed.

Lemma suggestedMin_fits_the_form_witness :
  5 * 5 + 1 <= suggestedMin 5 5 100 <= 5 * 5 + 3 /\
  suggestedMin 5 5 100 <= 60.
Proof. apply (suggestedMin_fits_the_form 5 5 100); lia. Defined.

(** ** The shuffle *)














(** ** The two steps of a generation *)

(** X10. With a topic or an image, [handleStartGeneration] calls the subject
    detection exactly once, with the topic and the image of the state.  It
    passes through DETECTING and ends in CONFIRMING when the call resolves,
    with the detected context stored and its subject offered as the editable
    name, and in ERROR when the call is rejected, with the context left as
    it was.  Items, cards and all settings stay as they were. *)
Theorem handleStartGeneration_detects
    (detectSubject : js_string -> option js_string -> Outcome SubjectContext.t)
    (w : World) :
  let s := app w in
  let w' := handleStartGeneration detectSubject w in
  truthy (topic s) = true \/ truthy_opt (selectedImage s) = true ->
  same_settings s (app w') /\
  rng w' = rng w /\
  filter is_service_call (events w')
    = filter is_service_call (events w)
      ++ [DetectSubjectCall (topic s) (selectedImage s)] /\
  (exists final,
     filter is_status_set (events w')
       = filter is_status_set (events w)
         ++ [StatusSet DETECTING; StatusSet final] /\
     status (app w') = final /\
     match detectSubject (topic s) (selectedImage s) with
     | Resolved context =>
         final = CONFIRMING /\
         subjectContext (app w') = context /\
         tempSubjectName (app w') = SubjectContext.subject context
     | Rejected _ =>
         final = ERROR /\
         subjectContext (app w') = subjectContext s /\
         tempSubjectName (app w') = tempSubjectName s
     end).
Proof.
  intros s w' Hinput. subst w'. unfold handleStartGeneration. fold s.
  assert (Hguard : negb (truthy (topic s))
                   && negb (truthy_opt (selectedImage s)) = false).
  { destruct Hinput as [-> | ->]; [reflexivity|apply andb_false_r]. }
  rewrite Hguard.
  destruct (detectSubject (topic s) (selectedImage s)) as [context|e];
    cbn [setStatus emit update app rng events];
    rewrite !filter_app; cbn; rewrite ?app_nil_r, <- ?app_assoc; cbn.
  - split; [repeat split|]. split; [reflexivity|]. split; [reflexivity|].
    exists CONFIRMING. repeat split.
  - split; [repeat split|]. split; [reflexivity|]. split; [reflexivity|].
    exists ERROR. repeat split.
Qed.

Lemma handleStartGeneration_detects_witness :
  let w := update (with_topic (js "Dieren")) fresh_world in
  let s := app w in
  let w' := handleStartGeneration detect_topic w in
  same_settings s (app w') /\
  rng w' = rng w /\
  filter is_service_call (events w')
    = filter is_service_call (events w)
      ++ [DetectSubjectCall (topic s) (selectedImage s)] /\
  (exists final,
     filter is_status_set (events w')
       = filter is_status_set (events w)
         ++ [StatusSet DETECTING; StatusSet final] /\
     status (app w') = final /\
     match detect_topic (topic s) (selectedImage s) with
     | Resolved context =>
         final = CONFIRMING /\
         subjectContext (app w') = context /\
         tempSubjectName (app w') = SubjectContext.subject context
     | Rejected _ =>
         final = ERROR /\
         subjectContext (app w') = subjectContext s /\
         tempSubjectName (app w') = tempSubjectName s
     end).
Proof.
  apply (handleStartGeneration_detects detect_topic
           (update (with_topic (js "Dieren")) fresh_world)).
  left. reflexivity.
Defined.

Section Confirm.
Variable random : nat -> Q.
Variable generateBingoItems :
  SubjectContext.t -> js_string -> Z -> option js_string ->
  GenerationMode -> Outcome (list BingoItem.t).

Lemma handleConfirmAndGenerate_unfold (w : World) :
  handleConfirmAndGenerate random generateBingoItems w
  = let s := app w in
    let w1 :=
      mkWorld (with_status GENERATING (with_subjectContext (editedContext s) s))
        (rng w)
        (events w ++ [StatusSet GENERATING;
                      GenerateBingoItemsCall (editedContext s) (topic s)
                        (poolSize s) (selectedImage s) (generationMode s)]) in
    match itemsOutcome generateBingoItems s with
    | Resolved pool =>
        setStatus SUCCESS
          (generateCards random pool (cardCount s)
             (update (with_items pool) w1))
    | Rejected e => setStatus ERROR (emit (ConsoleError e) w1)
    end.
Proof.
  unfold handleConfirmAndGenerate, itemsOutcome, editedContext, setStatus,
    emit, update. cbn [app rng events]. rewrite <- !app_assoc. reflexivity.
Qed.

(** X11. [handleConfirmAndGenerate] calls the item generation exactly once,
    for the subject as edited (the editable name with the detected math
    flag), the topic, the pool size, the image and the mode of the state.
    It passes through GENERATING and ends in SUCCESS when the call resolves
    and in ERROR when it is rejected; after a rejection the items and the
    cards are the old ones.  The stored subject is the edited one in both
    cases, and the settings are never touched. *)
Theorem handleConfirmAndGenerate_protocol (w : World) :
  let s := app w in
  let w' := handleConfirmAndGenerate random generateBingoItems w in
  subjectContext (app w') = editedContext s /\
  (gridRows (app w') = gridRows s /\ gridCols (app w') = gridCols s /\
   cardCount (app w') = cardCount s /\ poolSize (app w') = poolSize s /\
   minPoolSize (app w') = minPoolSize s /\ topic (app w') = topic s /\
   selectedImage (app w') = selectedImage s /\
   generationMode (app w') = generationMode s /\
   tempSubjectName (app w') = tempSubjectName s) /\
  filter is_service_call (events w')
    = filter is_service_call (events w)
      ++ [GenerateBingoItemsCall (editedContext s) (topic s) (poolSize s)
            (selectedImage s) (generationMode s)] /\
  match itemsOutcome generateBingoItems s with
  | Resolved pool =>
      status (app w') = SUCCESS /\
      items (app w') = pool /\
      filter is_status_set (events w')
        = filter is_status_set (events w)
          ++ [StatusSet GENERATING; StatusSet SUCCESS]
  | Rejected e =>
      status (app w') = ERROR /\
      items (app w') = items s /\
      cards (app w') = cards s /\
      filter is_status_set (events w')
        = filter is_status_set (events w)
          ++ [StatusSet GENERATING; StatusSet ERROR]
  end.
Proof.
  intros s w'. subst w'. rewrite handleConfirmAndGenerate_unfold.
  cbv zeta. fold s. destruct (itemsOutcome generateBingoItems s) as [pool|e].
  - unfold generateCards.
    destruct (generateCards_loop _ _ _ _ _ _ _) as [[newCards|] rng'];
      cbn [setStatus emit update app rng events];
      rewrite !filter_app; cbn; rewrite ?app_nil_r, <- ?app_assoc; cbn;
      repeat split.
  - cbn [setStatus emit update app rng events].
    rewrite !filter_app; cbn; rewrite ?app_nil_r, <- ?app_assoc; cbn.
    repeat split.
Qed.



End Confirm.



(** ** The uploaded image *)

Lemma handleConfirmAndGenerate_service_calls (random : nat -> Q)
    (generateBingoItems :
       SubjectContext.t -> js_string -> Z -> option js_string ->
       GenerationMode -> Outcome (list BingoItem.t))
    (w : World) :
  filter is_service_call
    (events (handleConfirmAndGenerate random generateBingoItems w))
  = filter is_service_call (events w)
    ++ [GenerateBingoItemsCall (editedContext (app w)) (topic (app w))
          (poolSize (app w)) (selectedImage (app w))
          (generationMode (app w))].
Proof.
  rewrite handleConfirmAndGenerate_unfold. cbv zeta.
  destruct (itemsOutcome generateBingoItems (app w)) as [pool|e].
  - unfold generateCards.
    destruct (generateCards_loop _ _ _ _ _ _ _) as [[newCards|] rng'];
      cbn [setStatus emit update app rng events];
      rewrite !filter_app; cbn; rewrite ?app_nil_r; reflexivity.
  - cbn [setStatus emit update app rng events].
    rewrite !filter_app; cbn; rewrite ?app_nil_r. reflexivity.
Qed.

Lemma handleStartGeneration_blocked
    (detectSubject : js_string -> option js_string -> Outcome SubjectContext.t)
    (w : World) :
  truthy (topic (app w)) = false ->
  truthy_opt (selectedImage (app w)) = false ->
  handleStartGeneration detectSubject w
  = emit (Alert (js "Voer een onderwerp in of upload een afbeelding.")) w.
Proof.
  intros Htopic Himage. unfold handleStartGeneration.
  rewrite Htopic, Himage. reflexivity.
Qed.

Lemma handleStartGeneration_service_call
    (detectSubject : js_string -> option js_string -> Outcome SubjectContext.t)
    (w : World) :
  truthy (topic (app w)) = true \/ truthy_opt (selectedImage (app w)) = true ->
  filter is_service_call (events (handleStartGeneration detectSubject w))
  = filter is_service_call (events w)
    ++ [DetectSubjectCall (topic (app w)) (selectedImage (app w))].
Proof.
  intros Hinput. unfold handleStartGeneration.
  assert (Hguard : negb (truthy (topic (app w)))
                   && negb (truthy_opt (selectedImage (app w))) = false).
  { destruct Hinput as [-> | ->]; [reflexivity|apply andb_false_r]. }
  rewrite Hguard.
  destruct (detectSubject _ _);
    cbn [setStatus emit update app rng events];
    rewrite !filter_app; cbn; rewrite ?app_nil_r, <- ?app_assoc; reflexivity.
Qed.

(** X14. [clearImage] removes the image and nothing else: the processing
    mode chosen for the image stays.  A generation confirmed afterwards
    calls the service without an image and with that mode, "exact"
    included; and with an empty topic the first step is blocked again by
    the alert. *)
Theorem clearImage_keeps_the_mode (random : nat -> Q)
    (detectSubject : js_string -> option js_string -> Outcome SubjectContext.t)
    (generateBingoItems :
       SubjectContext.t -> js_string -> Z -> option js_string ->
       GenerationMode -> Outcome (list BingoItem.t))
    (w : World) :
  let s := app w in
  let w1 := update clearImage w in
  with_selectedImage (selectedImage s) (app w1) = s /\
  selectedImage (app w1) = None /\
  generationMode (app w1) = generationMode s /\
  filter is_service_call
    (events (handleConfirmAndGenerate random generateBingoItems w1))
  = filter is_service_call (events w)
    ++ [GenerateBingoItemsCall (editedContext s) (topic s) (poolSize s)
          None (generationMode s)] /\
  (topic s = [] ->
   handleStartGeneration detectSubject w1
   = emit (Alert (js "Voer een onderwerp in of upload een afbeelding.")) w1).
Proof.
  intros s w1. subst w1. repeat split.
  - subst s. destruct w as [[] ? ?]. reflexivity.
  - rewrite handleConfirmAndGenerate_service_calls. reflexivity.
  - intros Htopic. apply handleStartGeneration_blocked; [|reflexivity].
    cbn. fold s. rewrite Htopic. reflexivity.
Qed.

Lemma clearImage_keeps_the_mode_witness :
  let s := app exact_image_world in
  let w1 := update clearImage exact_image_world in
  generationMode (app w1) = exact /\
  filter is_service_call
    (events (handleConfirmAndGenerate random7 items_as_requested w1))
  = filter is_service_call (events exact_image_world)
    ++ [GenerateBingoItemsCall (editedContext s) (topic s) (poolSize s)
          None exact].
Proof.
  destruct (clearImage_keeps_the_mode random7 detect_topic items_as_requested
              exact_image_world) as (_ & _ & Hmode & Hcall & _).
  split; [exact Hmode|exact Hcall].
Defined.

(** X15. An upload that ends with a non-empty data URL stores it, sets the
    processing mode back to "similar" whatever it was, and changes nothing
    else; the first step then goes ahead even with an empty topic and
    passes the image to the subject detection.  When no file was chosen the
    state is left as it is. *)
Theorem handleImageUpload_selects_image
    (detectSubject : js_string -> option js_string -> Outcome SubjectContext.t)
    (w : World) (image : js_string) :
  let s := app w in
  let w1 := update (handleImageUpload (Some (Some image))) w in
  image <> [] ->
  selectedImage (app w1) = Some image /\
  generationMode (app w1) = similar /\
  with_generationMode (generationMode s)
    (with_selectedImage (selectedImage s) (app w1)) = s /\
  filter is_service_call (events (handleStartGeneration detectSubject w1))
  = filter is_service_call (events w)
    ++ [DetectSubjectCall (topic s) (Some image)] /\
  update (handleImageUpload None) w = w.
Proof.
  intros s w1 Himage. subst w1. repeat split.
  - subst s. destruct w as [[] ? ?]. reflexivity.
  - rewrite handleStartGeneration_service_call; [reflexivity|].
    right. cbn. destruct image; [contradiction|reflexivity].
  - destruct w. reflexivity.
Qed.

Lemma handleImageUpload_selects_image_witness :
  let w := update (with_generationMode exact) fresh_world in
  let s := app w in
  let image := js "data:image/png;base64,iVBOR" in
  let w1 := update (handleImageUpload (Some (Some image))) w in
  selectedImage (app w1) = Some image /\
  generationMode (app w1) = similar /\
  with_generationMode (generationMode s)
    (with_selectedImage (selectedImage s) (app w1)) = s /\
  filter is_service_call (events (handleStartGeneration no_detect w1))
  = filter is_service_call (events w)
    ++ [DetectSubjectCall (topic s) (Some image)] /\
  update (handleImageUpload None) w = w.
Proof.
  apply (handleImageUpload_selects_image no_detect
           (update (with_generationMode exact) fresh_world)
           (js "data:image/png;base64,iVBOR")).
  discriminate.
Defined.

(** ** The card view *)

Lemma Array_slice_segment {T} (l : list T) (start n : Z) :
  0 <= start -> 0 <= n ->
  Array_slice l start (start + n)
  = take (Z.to_nat n) (drop (Z.to_nat start) l).
Proof.
  intros Hs Hn. unfold Array_slice, relative_index.
  destruct (Z.ltb_spec start 0) as [?|_]; [lia|].
  destruct (Z.ltb_spec (start + n) 0) as [?|_]; [lia|].
  destruct (Z_le_gt_dec start (Z.of_nat (length l))) as [Hin|Hout].
  - rewrite (Z.min_l start) by lia.
    destruct (Z_le_gt_dec (start + n) (Z.of_nat (length l))) as [Hfit|Hcut].
    + rewrite Z.min_l by lia. f_equal. lia.
    + rewrite Z.min_r by lia.
      rewrite !take_ge; [reflexivity| |]; rewrite length_drop; lia.
  - rewrite !drop_ge by lia. rewrite !take_nil. reflexivity.
Qed.

Lemma gridRows_loop_rows (cells : list Cell) (cols : Z) (steps : nat) :
  0 <= cols ->
  forall (i : nat) (result : list (list Cell)),
  CardView.gridRows_loop steps (Z.of_nat i) cells cols result
  = result
    ++ map (fun r => take (Z.to_nat cols)
                       (drop ((i + r) * Z.to_nat cols) cells))
         (seq 0 steps).
Proof.
  intros Hcols. induction steps as [|steps IH]; intros i result.
  - simpl. rewrite app_nil_r. reflexivity.
  - cbn [CardView.gridRows_loop].
    assert (Hrow : Array_slice cells (Z.of_nat i * cols)
                     ((Z.of_nat i + 1) * cols)
                   = take (Z.to_nat cols)
                       (drop ((i + 0) * Z.to_nat cols) cells)).
    { replace ((Z.of_nat i + 1) * cols) with (Z.of_nat i * cols + cols)
        by lia.
      rewrite Array_slice_segment by lia. do 2 f_equal. nia. }
    rewrite Hrow.
    replace (Z.of_nat i + 1) with (Z.of_nat (S i)) by lia.
    rewrite IH. rewrite <- app_assoc. f_equal.
    cbn [seq map app]. f_equal.
    rewrite <- seq_shift, map_map. apply map_ext. intros r.
    do 3 f_equal. lia.
Qed.

Lemma gridRows_rows (card : BingoCardData.t) (rows cols : Z) :
  0 <= cols ->
  CardView.gridRows card rows cols
  = map (fun r => take (Z.to_nat cols)
                    (drop (r * Z.to_nat cols) (BingoCardData.cells card)))
      (seq 0 (Z.to_nat rows)).
Proof.
  intros Hcols. unfold CardView.gridRows.
  rewrite (gridRows_loop_rows _ _ _ Hcols 0 []). reflexivity.
Qed.

Lemma concat_chunks {T} (l : list T) (w n : nat) :
  concat (map (fun r => take w (drop (r * w) l)) (seq 0 n)) = take (n * w) l.
Proof.
  induction n as [|n IH].
  - reflexivity.
  - rewrite seq_S, map_app, concat_app, IH. cbn [map concat Nat.add].
    rewrite app_nil_r.
    replace (S n * w)%nat with (n * w + w)%nat by lia.
    rewrite take_take_drop. reflexivity.
Qed.

(** X16. Cutting a card into rows loses and reorders nothing: for
    non-negative [rows] and [cols] the view has [rows] rows, and read row
    after row they are the first [rows * cols] cells of the card, in order
    (all of them when the card has at most that many cells). *)
Theorem gridRows_flattens_to_cells (card : BingoCardData.t) (rows cols : Z) :
  0 <= rows -> 0 <= cols ->
  length (CardView.gridRows card rows cols) = Z.to_nat rows /\
  concat (CardView.gridRows card rows cols)
    = take (Z.to_nat (rows * cols)) (BingoCardData.cells card).
Proof.
  intros Hrows Hcols. rewrite gridRows_rows by exact Hcols. split.
  - rewrite length_map, length_seq. reflexivity.
  - rewrite concat_chunks. f_equal. nia.
Qed.

Lemma gridRows_flattens_to_cells_witness :
  let card := BingoCardData.mk 1 (map Item (pool_of 9)) in
  length (CardView.gridRows card 3 3) = Z.to_nat 3 /\
  concat (CardView.gridRows card 3 3)
    = take (Z.to_nat (3 * 3)) (BingoCardData.cells card).
Proof.
  apply (gridRows_flattens_to_cells (BingoCardData.mk 1 (map Item (pool_of 9)))
           3 3); lia.
Defined.

(** X17. The cell shown in row [r], column [c] of the view is cell
    [r * cols + c] of the card, the index the PDF export uses for the same
    place; and a card of exactly [rows * cols] cells is shown as [rows] full
    rows of [cols] cells. *)
Theorem gridRows_cell_index (card : BingoCardData.t) (rows cols : Z)
    (r c : nat) :
  0 <= cols ->
  (Z.of_nat r < rows) -> (Z.of_nat c < cols) ->
  (exists row,
     CardView.gridRows card rows cols !! r = Some row /\
     row !! c = BingoCardData.cells card !! (r * Z.to_nat cols + c)%nat) /\
  (Z.of_nat (length (BingoCardData.cells card)) = rows * cols ->
   Forall (fun row => Z.of_nat (length row) = cols)
     (CardView.gridRows card rows cols)).
Proof.
  intros Hcols Hr Hc. rewrite gridRows_rows by exact Hcols. split.
  - exists (take (Z.to_nat cols)
              (drop (r * Z.to_nat cols) (BingoCardData.cells card))).
    split.
    + rewrite list_lookup_fmap, lookup_seq_lt by lia. reflexivity.
    + rewrite lookup_take_lt by lia. rewrite lookup_drop. reflexivity.
  - intros Hfull. apply Forall_forall. intros row Hrow.
    apply list_elem_of_fmap in Hrow as (r' & -> & Hr').
    apply elem_of_seq in Hr'.
    rewrite length_take, length_drop. nia.
Qed.

Lemma gridRows_cell_index_witness :
  let card := BingoCardData.mk 1 (map Item (pool_of 9)) in
  (exists row,
     CardView.gridRows card 3 3 !! 1%nat = Some row /\
     row !! 2%nat = BingoCardData.cells card !! (1 * Z.to_nat 3 + 2)%nat) /\
  (Z.of_nat (length (BingoCardData.cells card)) = 3 * 3 ->
   Forall (fun row => Z.of_nat (length row) = 3)
     (CardView.gridRows card 3 3)).
Proof.
  apply (gridRows_cell_index (BingoCardData.mk 1 (map Item (pool_of 9)))
           3 3 1 2); lia.
Defined.

Lemma renderCell_item (isMath : bool) (item : BingoItem.t) :
  CardView.renderCell isMath (Item item)
  = CallingList.cell isMath (BingoItem.answer item).
Proof.
  unfold CardView.renderCell, CallingList.cell.
  destruct (BingoItem.answer item) as [|c rest]; reflexivity.
Qed.


(** X18. The card view and the calling list show an item's answer the same
    way: both as a formula or both as plain text, with the same content.
    Outside math mode neither of them uses [MathDisplay]. *)
Theorem answer_rendered_alike (isMath : bool) (item : BingoItem.t) :
  CardView.renderCell isMath (Item item)
    = CallingList.cell isMath (BingoItem.answer item) /\
  (isMath = false ->
   CardView.renderCell isMath (Item item)
     = PlainText (BingoItem.answer item) /\
   CallingList.cell isMath (BingoItem.problem item)
     = PlainText (BingoItem.problem item)).
Proof.
  split.
  - apply renderCell_item.
  - intros ->. rewrite renderCell_item. split; reflexivity.
Qed.

Lemma answer_rendered_alike_witness :
  let item := BingoItem.mk 1 (js "3x = 12") (js "x = 4") in
  CardView.renderCell true (Item item) = MathDisplay (js "x = 4") /\
  CallingList.cell true (BingoItem.answer item) = MathDisplay (js "x = 4").
Proof.
  destruct (answer_rendered_alike true
              (BingoItem.mk 1 (js "3x = 12") (js "x = 4"))) as [Halike _].
  split; [reflexivity|]. rewrite <- Halike. reflexivity.
Defined.



(** ** The name of the exported file *)

Lemma class_matches_i_alnum (c : N) :
  class_matches_i [Rng 97 122; Rng 48 57]%N c = true <-> is_alnum c.
Proof.
  unfold class_matches_i, class_matches, item_matches, swap_ascii_case,
    is_alnum. cbn [existsb].
  destruct ((97 <=? c) && (c <=? 122))%N eqn:Hlower.
  - apply andb_true_iff in Hlower as [H1 H2].
    apply N.leb_le in H1, H2. cbn. split; [intros _; lia|reflexivity].
  - destruct ((65 <=? c) && (c <=? 90))%N eqn:Hupper.
    + apply andb_true_iff in Hupper as [H1 H2].
      apply N.leb_le in H1, H2.
      replace ((97 <=? c + 32) && (c + 32 <=? 122))%N with true.
      * rewrite !orb_true_r. cbn. split; [intros _; lia|reflexivity].
      * symmetry. apply andb_true_iff. split; apply N.leb_le; lia.
    + rewrite Hlower. cbn [orb]. rewrite !orb_false_r, orb_diag.
      apply andb_false_iff in Hlower, Hupper.
      rewrite !N.leb_gt in Hlower, Hupper.
      rewrite andb_true_iff, !N.leb_le. lia.
Qed.

Lemma replace_unsafe_lookup (subject : js_string) (i : nat) (c : N) :
  subject !! i = Some c ->
  replace_unsafe subject !! i
  = Some (if negb (class_matches_i [Rng 97 122; Rng 48 57]%N c) then 95%N
          else c).
Proof.
  revert i. induction subject as [|c0 rest IH]; intros [|i] Hc;
    simplify_eq/=; [reflexivity|].
  apply IH. exact Hc.
Qed.

Lemma replace_unsafe_charset (subject : js_string) :
  Forall (fun c => is_alnum c \/ c = 95%N) (replace_unsafe subject).
Proof.
  induction subject as [|c0 rest IH]; [constructor|].
  unfold replace_unsafe in *. cbn [map]. constructor; [|exact IH].
  destruct (class_matches_i _ c0) eqn:Hm; cbn [negb].
  - left. apply class_matches_i_alnum. exact Hm.
  - right. reflexivity.
Qed.

(** X20. The exported file is named "Bingo-" + the subject + ".pdf", the
    subject with every code unit other than an ASCII letter or digit
    replaced by an underscore: the name has as many code units as the
    subject plus ten, letters and digits stay where they are, and the part
    taken from the subject holds nothing but ASCII letters, digits and
    underscores. *)
Theorem pdfFileName_safe (subject : js_string) :
  pdfFileName subject = js "Bingo-" ++ replace_unsafe subject ++ js ".pdf" /\
  length (pdfFileName subject) = (length subject + 10)%nat /\
  length (replace_unsafe subject) = length subject /\
  Forall (fun c => is_alnum c \/ c = 95%N) (replace_unsafe subject) /\
  (forall i c, subject !! i = Some c ->
     (is_alnum c -> replace_unsafe subject !! i = Some c) /\
     (~ is_alnum c -> replace_unsafe subject !! i = Some 95%N)).
Proof.
  split; [reflexivity|]. split; [|split; [|split]].
  - unfold pdfFileName. rewrite !length_app.
    unfold replace_unsafe. rewrite length_map. simpl. lia.
  - unfold replace_unsafe. apply length_map.
  - apply replace_unsafe_charset.
  - intros i c Hc. rewrite (replace_unsafe_lookup subject i c Hc).
    destruct (class_matches_i _ c) eqn:Hm; cbn [negb].
    + split; [reflexivity|]. intros Hn. exfalso. apply Hn.
      apply class_matches_i_alnum. exact Hm.
    + split; [|reflexivity]. intros Ha.
      apply class_matches_i_alnum in Ha. congruence.
Qed.

Lemma pdfFileName_safe_example :
  pdfFileName (js "Breuken & procenten (groep 7)")
  = js "Bingo-Breuken___procenten__groep_7_.pdf".
Proof. reflexivity. Qed.

(** X21. Cleaning a subject twice is the same as cleaning it once, and a
    subject made of ASCII letters and digits only is used as it is. *)
Theorem replace_unsafe_idempotent (subject : js_string) :
  replace_unsafe (replace_unsafe subject) = replace_unsafe subject /\
  (Forall is_alnum subject -> replace_unsafe subject = subject).
Proof.
  assert (Hfix : forall l, Forall (fun c => is_alnum c \/ c = 95%N) l ->
                           replace_unsafe l = l).
  { induction 1 as [|c l Hc _ IH]; [reflexivity|].
    unfold replace_unsafe in *. cbn [map]. rewrite IH. f_equal.
    destruct Hc as [Ha| ->]; [|reflexivity].
    apply class_matches_i_alnum in Ha. rewrite Ha. reflexivity. }
  split.
  - apply Hfix. apply replace_unsafe_charset.
  - intros Hall. apply Hfix. eapply Forall_impl; [exact Hall|].
    intros c Hc. left. exact Hc.
Qed.

Lemma replace_unsafe_idempotent_witness :
  replace_unsafe (js "Dieren") = js "Dieren".
Proof.
  destruct (replace_unsafe_idempotent (js "Dieren")) as [_ Hsame].
  apply Hsame. unfold is_alnum.
  change (js "Dieren") with [68; 105; 101; 114; 101; 110]%N.
  repeat (constructor; [lia|]). constructor.
Defined.

(** ** The native PDF *)

Lemma Qgtb_lt (a b : Q) : Qgtb a b = true <-> (b < a)%Q.
Proof.
  unfold Qgtb. rewrite negb_true_iff. split.
  - intros H. apply Qnot_le_lt. intros Hle.
    apply Qle_bool_iff in Hle. congruence.
  - intros H. destruct (Qle_bool a b) eqn:Hle; [|reflexivity].
    apply Qle_bool_iff in Hle. apply Qlt_not_le in H. contradiction.
Qed.

Lemma Qgtb_le (a b : Q) : Qgtb a b = false <-> (a <= b)%Q.
Proof.
  unfold Qgtb. rewrite negb_false_iff. apply Qle_bool_iff.
Qed.

Lemma frames_quiet (page : nat) (l rest : list DocCall) :
  Forall quiet l -> frames page (l ++ rest) = frames page rest.
Proof.
  induction 1 as [|call l Hcall _ IH]; [reflexivity|].
  destruct call as [| | | | | | |x y w h [style|]| |]; simpl in *;
    solve [contradiction|exact IH].
Qed.

Section NativePDFProperties.
Variable splitTextToSize : Q -> js_string -> Q -> list js_string.

Lemma drawCell_quiet (x gridStartY : Q) (cols : Z) (cells : list Cell)
    (r c : Z) :
  Forall quiet (drawCell splitTextToSize x gridStartY cols cells r c).
Proof.
  unfold drawCell.
  destruct (_ >=? _); [constructor|].
  destruct (cells !! _) as [[item|]|]; repeat constructor.
Qed.

Lemma drawRow_quiet (steps : nat) (x gridStartY : Q) (cols : Z)
    (cells : list Cell) (r c : Z) :
  Forall quiet (drawRow splitTextToSize steps x gridStartY cols cells r c).
Proof.
  revert c. induction steps as [|steps IH]; intros c; simpl.
  - constructor.
  - apply Forall_app. split; [apply drawCell_quiet|apply IH].
Qed.

Lemma drawGrid_quiet (steps : nat) (x gridStartY : Q) (cols : Z)
    (cells : list Cell) (r : Z) :
  Forall quiet (drawGrid splitTextToSize steps x gridStartY cols cells r).
Proof.
  revert r. induction steps as [|steps IH]; intros r; simpl.
  - constructor.
  - apply Forall_app. split; [apply drawRow_quiet|apply IH].
Qed.

Lemma frames_drawCard (rows cols : Z) (total : nat)
    (card : BingoCardData.t) (index : nat) (cursorY : Q) (page : nat)
    (rest : list DocCall) :
  frames page
    ((drawCard splitTextToSize rows cols total card index cursorY).1 ++ rest)
  = placement rows cols index cursorY page
    :: frames (placement rows cols index cursorY page).1.1 rest.
Proof.
  unfold drawCard, placement.
  generalize (js "BINGO KAART #" ++ Number_toString (BingoCardData.id card)).
  intros title.
  generalize (index mod 2)%nat. intros colIndex.
  pose proof (drawGrid_quiet (Z.to_nat rows)
                (margin + inject_Z (Z.of_nat colIndex) * (cardWidth + gap))%Q)
    as Hgrid.
  destruct (colIndex =? 0)%nat;
    [destruct (Qgtb _ _)|]; cbn [andb fst snd];
    rewrite <- !app_assoc; cbn [Datatypes.app frames];
    rewrite frames_quiet by apply Hgrid; reflexivity.
Qed.

Lemma frames_drawCards_cons (rows cols : Z) (total : nat)
    (card : BingoCardData.t) (rest : list BingoCardData.t) (index : nat)
    (cursorY : Q) (page : nat) :
  frames page
    (drawCards splitTextToSize rows cols total (card :: rest) index cursorY)
  = placement rows cols index cursorY page
    :: frames (placement rows cols index cursorY page).1.1
         (drawCards splitTextToSize rows cols total rest (S index)
            (drawCard splitTextToSize rows cols total card index cursorY).2).
Proof.
  cbn [drawCards].
  destruct (drawCard _ _ _ _ _ _ _) as [calls cursorY'] eqn:Hcard.
  pose proof (frames_drawCard rows cols total card index cursorY page) as H.
  rewrite Hcard in H. apply H.
Qed.

Lemma mod2_cases (i : nat) :
  ((i mod 2 = 0 /\ S i mod 2 = 1) \/ (i mod 2 = 1 /\ S i mod 2 = 0))%nat.
Proof.
  induction i as [|i IH]; [left; split; reflexivity|].
  replace (S (S i)) with (i + 1 * 2)%nat by lia.
  rewrite Nat.Div0.mod_add.
  destruct IH as [[H1 H2]|[H1 H2]]; [right|left]; split; assumption.
Qed.

Lemma drawCard_cursor (rows cols : Z) (total : nat) (card : BingoCardData.t)
    (index : nat) (cursorY : Q) (page : nat) :
  (drawCard splitTextToSize rows cols total card index cursorY).2
  = let y := (placement rows cols index cursorY page).2 in
    if ((index mod 2 =? 1) || (index =? total - 1))%nat
    then (y + (totalCardHeight rows cols + 10))%Q
    else y.
Proof.
  unfold drawCard, placement.
  destruct (index mod 2 =? 0)%nat; [destruct (Qgtb _ _)|]; reflexivity.
Qed.

Lemma frames_drawCards_length (rows cols : Z) (total : nat)
    (cards : list BingoCardData.t) (index : nat) (cursorY : Q) (page : nat) :
  length (frames page
            (drawCards splitTextToSize rows cols total cards index cursorY))
  = length cards.
Proof.
  revert index cursorY page.
  induction cards as [|card rest IH]; intros index cursorY page.
  - reflexivity.
  - rewrite frames_drawCards_cons. cbn [length]. rewrite IH. reflexivity.
Qed.

Section Layout.
Variables (rows cols : Z) (total : nat).
Let H := totalCardHeight rows cols.
Hypothesis H_nonneg : (0 <= H)%Q.

Lemma placement_on_page (index : nat) (cursorY : Q) (page : nat) :
  (H <= 267)%Q ->
  (20 <= cursorY)%Q ->
  ((index mod 2)%nat = 1%nat -> (cursorY + H <= 287)%Q) ->
  on_page H (placement rows cols index cursorY page).
Proof.
  intros Hfit Hcursor Hodd. unfold placement, on_page. fold H.
  unfold margin, cardWidth, gap, pageWidth, pageHeight in *.
  destruct (mod2_cases index) as [[Hmod _]|[Hmod _]]; rewrite Hmod.
  - change (inject_Z (Z.of_nat 0)) with 0%Q. cbn [Nat.eqb andb].
    destruct (Qgtb _ _) eqn:Hgt.
    + repeat split; lra.
    + apply Qgtb_le in Hgt. repeat split; lra.
  - change (inject_Z (Z.of_nat 1)) with 1%Q. cbn [Nat.eqb andb].
    specialize (Hodd Hmod). repeat split; lra.
Qed.

Lemma drawCards_on_page (cards : list BingoCardData.t) (index : nat)
    (cursorY : Q) (page : nat) :
  (H <= 267)%Q ->
  (index + length cards = total)%nat ->
  (20 <= cursorY)%Q ->
  ((index mod 2)%nat = 1%nat -> (cursorY + H <= 287)%Q) ->
  Forall (on_page H)
    (frames page
       (drawCards splitTextToSize rows cols total cards index cursorY)).
Proof.
  intros Hfit. revert index cursorY page.
  induction cards as [|card rest IH]; intros index cursorY page Hlen Hcursor Hodd.
  - constructor.
  - rewrite frames_drawCards_cons. constructor.
    + apply placement_on_page; assumption.
    + destruct rest as [|card' rest']; [constructor|].
      pose proof (placement_on_page index cursorY page Hfit Hcursor Hodd)
        as Hplace.
      rewrite (drawCard_cursor rows cols total card index cursorY page).
      cbv zeta. fold H.
      destruct (placement rows cols index cursorY page) as [[p x] y] eqn:Hp.
      cbn [fst snd]. unfold on_page in Hplace.
      unfold margin, cardWidth, gap, pageWidth, pageHeight in Hplace.
      cbn [length] in Hlen.
      replace (index =? total - 1)%nat with false
        by (symmetry; apply Nat.eqb_neq; lia).
      rewrite orb_false_r.
      destruct (mod2_cases index) as [[Hmod HmodS]|[Hmod HmodS]];
        rewrite Hmod; cbn [Nat.eqb].
      * apply IH; [cbn [length]; lia|lra|]. intros _. lra.
      * apply IH; [cbn [length]; lia|lra|]. intros Hcontra. lia.
Qed.

Lemma placement_below (index : nat) (cursorY : Q) (page : nat) :
  below H index cursorY page (placement rows cols index cursorY page).
Proof.
  unfold placement, below.
  destruct (mod2_cases index) as [[Hmod _]|[Hmod _]]; rewrite Hmod.
  - cbn [Nat.eqb andb]. destruct (Qgtb _ _).
    + split; [lia|]. intros Hcontra. lia.
    + split; [lia|]. intros _. split; [apply Qle_refl|]. intros Hcontra. lia.
  - cbn [Nat.eqb andb]. split; [lia|]. intros _.
    split; [apply Qle_refl|]. intros _. left. split; [reflexivity|].
    change (inject_Z (Z.of_nat 1)) with 1%Q.
    unfold margin, cardWidth, gap. lra.
Qed.

Lemma drawCards_below (cards : list BingoCardData.t) (index : nat)
    (cursorY : Q) (page : nat) :
  Forall (below H index cursorY page)
    (frames page
       (drawCards splitTextToSize rows cols total cards index cursorY)).
Proof.
  revert index cursorY page.
  induction cards as [|card rest IH]; intros index cursorY page.
  - constructor.
  - rewrite frames_drawCards_cons. constructor; [apply placement_below|].
    pose proof (placement_below index cursorY page) as Hplace.
    specialize (IH (S index)
                  (drawCard splitTextToSize rows cols total card index
                     cursorY).2
                  (placement rows cols index cursorY page).1.1).
    rewrite (drawCard_cursor rows cols total card index cursorY page) in *.
    cbv zeta in *. fold H in IH |- *.
    destruct (placement rows cols index cursorY page) as [[p y0x] y0] eqn:Hp.
    cbn [fst snd] in *.
    eapply Forall_impl; [exact IH|].
    intros [[pg xg] yg] Hg. unfold below in *.
    destruct Hplace as [Hpage Hsame]. destruct Hg as [Hpg Hgsame].
    split; [lia|]. intros ->.
    assert (p = page) by lia. subst p.
    specialize (Hsame eq_refl). specialize (Hgsame eq_refl).
    destruct Hsame as [Hy0 Hodd0]. destruct Hgsame as [Hyg _].
    destruct (mod2_cases index) as [[Hmod HmodS]|[Hmod HmodS]];
      rewrite Hmod in *; cbn [Nat.eqb orb] in Hyg.
    + split; [|intros Hcontra; lia].
      destruct (index =? total - 1)%nat; lra.
    + destruct (Hodd0 eq_refl) as [[-> _]|Hfar].
      * split; [lra|]. intros _. right. lra.
      * split; [lra|]. intros _. right. lra.
Qed.

Lemma drawCards_separated (cards : list BingoCardData.t) (index : nat)
    (cursorY : Q) (page : nat) :
  (index + length cards = total)%nat ->
  ForallOrdPairs (separated H)
    (frames page
       (drawCards splitTextToSize rows cols total cards index cursorY)).
Proof.
  revert index cursorY page.
  induction cards as [|card rest IH]; intros index cursorY page Hlen.
  - constructor.
  - rewrite frames_drawCards_cons. constructor.
    2:{ apply IH. cbn [length] in Hlen. lia. }
    destruct rest as [|card' rest']; [constructor|].
    pose proof (drawCards_below (card' :: rest') (S index)
                  (drawCard splitTextToSize rows cols total card index
                     cursorY).2
                  (placement rows cols index cursorY page).1.1) as Hbelow.
    rewrite (drawCard_cursor rows cols total card index cursorY page) in *.
    cbv zeta in *. fold H in Hbelow |- *.
    cbn [length] in Hlen.
    replace (index =? total - 1)%nat with false in *
      by (symmetry; apply Nat.eqb_neq; lia).
    rewrite orb_false_r in *.
    assert (Hx : (index mod 2)%nat = 0%nat ->
                 ((placement rows cols index cursorY page).1.2 == margin)%Q).
    { intros Hmod. unfold placement. rewrite Hmod. cbn [fst snd].
      change (inject_Z (Z.of_nat 0)) with 0%Q.
      unfold margin, cardWidth, gap. lra. }
    destruct (placement rows cols index cursorY page) as [[p x0] y0] eqn:Hp.
    cbn [fst snd] in *.
    eapply Forall_impl; [exact Hbelow|].
    intros [[pg xg] yg] [Hpg Hsame]. unfold separated.
    destruct (Nat.eq_dec pg p) as [->|Hne]; [right; split; [reflexivity|]
                                             |left; lia].
    destruct (Hsame eq_refl) as [Hyg Hodd].
    destruct (mod2_cases index) as [[Hmod HmodS]|[Hmod HmodS]];
      rewrite Hmod in *; cbn [Nat.eqb] in *.
    + destruct (Hodd HmodS) as [[-> Hxg]|Hfar].
      * left. split; [|reflexivity]. specialize (Hx eq_refl).
        unfold margin, cardWidth, gap in *. lra.
      * right. exact Hfar.
    + right. lra.
Qed.

End Layout.

End NativePDFProperties.

Lemma cellWidth_nonneg (cols : Z) : 0 < cols -> (0 <= cellWidth cols)%Q.
Proof.
  intros Hcols. unfold cellWidth, cardWidth.
  apply Qle_shift_div_l; [rewrite <- (Zlt_Qlt 0); exact Hcols|lra].
Qed.

Lemma totalCardHeight_nonneg (rows cols : Z) :
  0 <= rows -> 0 < cols -> (8 <= totalCardHeight rows cols)%Q.
Proof.
  intros Hrows Hcols. unfold totalCardHeight, cellHeight, headerHeight.
  pose proof (cellWidth_nonneg cols Hcols) as Hw.
  assert (Hr : (0 <= inject_Z rows)%Q) by (rewrite <- (Zle_Qle 0); exact Hrows).
  pose proof (Qmult_le_0_compat _ _ Hr Hw). lra.
Qed.

Lemma totalCardHeight_form (rows cols : Z) :
  0 <= rows <= 5 -> 3 <= cols -> (totalCardHeight rows cols <= 158)%Q.
Proof.
  intros Hrows Hcols. unfold totalCardHeight, cellHeight, headerHeight.
  pose proof (cellWidth_nonneg cols ltac:(lia)) as Hw.
  assert (Hw30 : (cellWidth cols <= 30)%Q).
  { unfold cellWidth, cardWidth. apply Qle_shift_div_r.
    - rewrite <- (Zlt_Qlt 0). lia.
    - assert (H3 : (3 <= inject_Z cols)%Q)
        by (rewrite <- (Zle_Qle 3); lia).
      lra. }
  assert (Hr0 : (0 <= inject_Z rows)%Q) by (rewrite <- (Zle_Qle 0); lia).
  assert (Hr5 : (inject_Z rows <= 5)%Q) by (rewrite <- (Zle_Qle _ 5); lia).
  assert (Hprod : (inject_Z rows * cellWidth cols <= 5 * 30)%Q)
    by (apply Qmult_le_compat_nonneg; split; assumption).
  lra.
Qed.

Lemma frames_generateNativePDF
    (splitTextToSize : Q -> js_string -> Q -> list js_string) (s : AppState) :
  frames 0 (generateNativePDF splitTextToSize s)
  = frames 0
      (drawCards splitTextToSize (gridRows s) (gridCols s) (length (cards s))
         (cards s) 0 30%Q).
Proof.
  unfold generateNativePDF. apply frames_quiet. repeat constructor.
Qed.

(** X22. In the native PDF every card is on its page.  The document holds
    one card frame for each card; for a grid whose card height is at most
    267 mm every card lies between the left and right margins, at least 20
    mm below the top of its page and 10 mm above its bottom; and every grid
    of up to 5 rows and at least 3 columns, so every grid of the form, has
    such a height. *)
Theorem native_pdf_cards_on_page
    (splitTextToSize : Q -> js_string -> Q -> list js_string) (s : AppState) :
  let rows := gridRows s in
  let cols := gridCols s in
  let H := totalCardHeight rows cols in
  let fs := frames 0 (generateNativePDF splitTextToSize s) in
  0 <= rows -> 0 < cols ->
  length fs = length (cards s) /\
  ((H <= 267)%Q -> Forall (on_page H) fs) /\
  (rows <= 5 -> 3 <= cols -> (H <= 267)%Q).
Proof.
  intros rows cols H fs Hrows Hcols. subst fs.
  rewrite frames_generateNativePDF. fold rows cols.
  pose proof (totalCardHeight_nonneg rows cols Hrows Hcols) as H8. fold H in H8.
  split; [apply frames_drawCards_length|]. split.
  - intros Hfit. apply drawCards_on_page; try assumption.
    + fold H. lra.
    + reflexivity.
    + lra.
    + intros Hcontra. discriminate.
  - intros Hr Hc.
    pose proof (totalCardHeight_form rows cols ltac:(lia) Hc) as Hform.
    fold H in Hform. lra.
Qed.

Lemma native_pdf_cards_on_page_witness :
  let s := app generated_world in
  let H := totalCardHeight (gridRows s) (gridCols s) in
  let fs := frames 0 (generateNativePDF one_line s) in
  length fs = length (cards s) /\ Forall (on_page H) fs.
Proof.
  destruct (native_pdf_cards_on_page one_line (app generated_world))
    as (Hlen & Hpage & Hform).
  - vm_compute. discriminate.
  - vm_compute. reflexivity.
  - split; [exact Hlen|]. apply Hpage. apply Hform; vm_compute; discriminate.
Defined.

(** X23. In the native PDF no two cards overlap: of any two cards, the one
    drawn later is on a later page, or on the same page to the right of the
    other at the same height with the 10 mm gap between them, or on the
    same page at least a card height plus 10 mm lower. *)
Theorem native_pdf_cards_apart
    (splitTextToSize : Q -> js_string -> Q -> list js_string) (s : AppState) :
  let rows := gridRows s in
  let cols := gridCols s in
  let H := totalCardHeight rows cols in
  0 <= rows -> 0 < cols ->
  ForallOrdPairs (separated H)
    (frames 0 (generateNativePDF splitTextToSize s)).
Proof.
  intros rows cols H Hrows Hcols.
  rewrite frames_generateNativePDF. fold rows cols.
  pose proof (totalCardHeight_nonneg rows cols Hrows Hcols) as H8. fold H in H8.
  apply drawCards_separated; [|reflexivity].
  fold H. lra.
Qed.

Lemma native_pdf_cards_apart_witness :
  let s := app generated_world in
  ForallOrdPairs (separated (totalCardHeight (gridRows s) (gridCols s)))
    (frames 0 (generateNativePDF one_line s)).
Proof.
  apply (native_pdf_cards_apart one_line (app generated_world)).
  - vm_compute. discriminate.
  - vm_compute. reflexivity.
Defined.

Lemma drawn_lines_app (l1 l2 : list DocCall) :
  drawn_lines (l1 ++ l2) = drawn_lines l1 ++ drawn_lines l2.
Proof.
  induction l1 as [|call l1 IH]; [reflexivity|].
  destruct call; cbn [Datatypes.app drawn_lines]; rewrite IH; reflexivity.
Qed.

Section NativePDFTexts.
Variable splitTextToSize : Q -> js_string -> Q -> list js_string.
Variables (x gridStartY : Q) (cols : Z) (selected : list BingoItem.t).
Hypothesis cols_nonneg : 0 <= cols.

Let wrap := wrapped_answer splitTextToSize cols.

Lemma drawCell_lines (r c : nat) :
  drawn_lines
    (drawCell splitTextToSize x gridStartY cols (map Item selected)
       (Z.of_nat r) (Z.of_nat c))
  = map wrap (take 1 (drop (r * Z.to_nat cols + c) selected)).
Proof.
  unfold drawCell. rewrite length_map.
  replace (Z.to_nat (Z.of_nat r * cols + Z.of_nat c))
    with (r * Z.to_nat cols + c)%nat by nia.
  destruct (Z.geb_spec (Z.of_nat r * cols + Z.of_nat c)
              (Z.of_nat (length selected))) as [Hout|Hin].
  - rewrite drop_ge by nia. reflexivity.
  - destruct (lookup_lt_is_Some_2 selected (r * Z.to_nat cols + c)
                ltac:(nia)) as [it Hit].
    change (map Item selected) with (Item <$> selected).
    rewrite list_lookup_fmap, Hit. cbn [fmap option_fmap option_map].
    cbn [drawn_lines].
    rewrite (drop_S _ _ _ Hit). reflexivity.
Qed.

Lemma drawRow_lines (steps r c : nat) :
  drawn_lines
    (drawRow splitTextToSize steps x gridStartY cols (map Item selected)
       (Z.of_nat r) (Z.of_nat c))
  = map wrap (take steps (drop (r * Z.to_nat cols + c) selected)).
Proof.
  revert c. induction steps as [|steps IH]; intros c.
  - reflexivity.
  - cbn [drawRow]. rewrite drawn_lines_app, drawCell_lines.
    replace (Z.of_nat c + 1) with (Z.of_nat (S c)) by lia.
    rewrite IH, <- map_app. f_equal.
    replace (r * Z.to_nat cols + S c)%nat
      with (r * Z.to_nat cols + c + 1)%nat by lia.
    rewrite <- (drop_drop selected 1 (r * Z.to_nat cols + c)).
    rewrite take_take_drop. reflexivity.
Qed.

Lemma drawGrid_lines (steps r : nat) :
  drawn_lines
    (drawGrid splitTextToSize steps x gridStartY cols (map Item selected)
       (Z.of_nat r))
  = map wrap
      (take (steps * Z.to_nat cols) (drop (r * Z.to_nat cols) selected)).
Proof.
  revert r. induction steps as [|steps IH]; intros r.
  - reflexivity.
  - cbn [drawGrid]. rewrite drawn_lines_app.
    pose proof (drawRow_lines (Z.to_nat cols) r 0) as Hrow.
    change (Z.of_nat 0) with 0 in Hrow. rewrite Hrow. clear Hrow.
    replace (Z.of_nat r + 1) with (Z.of_nat (S r)) by lia.
    rewrite IH, <- map_app. f_equal.
    rewrite Nat.add_0_r.
    replace (S r * Z.to_nat cols)%nat
      with (r * Z.to_nat cols + Z.to_nat cols)%nat by lia.
    rewrite <- (drop_drop selected (Z.to_nat cols) (r * Z.to_nat cols)).
    rewrite take_take_drop. reflexivity.
Qed.

End NativePDFTexts.

Lemma drawCard_lines
    (splitTextToSize : Q -> js_string -> Q -> list js_string)
    (rows cols : Z) (total : nat) (card : BingoCardData.t)
    (selected : list BingoItem.t) (index : nat) (cursorY : Q) :
  0 <= rows -> 0 <= cols ->
  BingoCardData.cells card = map Item selected ->
  Z.of_nat (length selected) = rows * cols ->
  drawn_lines (drawCard splitTextToSize rows cols total card index cursorY).1
  = map (wrapped_answer splitTextToSize cols) selected.
Proof.
  intros Hrows Hcols Hcells Hlen. unfold drawCard.
  generalize (js "BINGO KAART #" ++ Number_toString (BingoCardData.id card)).
  intros title.
  destruct (index mod 2 =? 0)%nat; [destruct (Qgtb _ _)|];
    cbn [fst snd]; rewrite !drawn_lines_app; cbn [drawn_lines Datatypes.app];
    rewrite Hcells;
    pose proof (drawGrid_lines splitTextToSize
                  (margin + inject_Z (Z.of_nat (index mod 2))
                            * (cardWidth + gap))%Q) as Hgrid;
    specialize (fun y => Hgrid y cols selected Hcols (Z.to_nat rows) 0%nat);
    change (Z.of_nat 0) with 0 in Hgrid; rewrite Hgrid;
    rewrite drop_0, take_ge by nia; reflexivity.
Qed.

(** X24. The native PDF writes every cell of every card exactly once, in
    the order of the cards and, within a card, row by row: for cards made
    of [rows * cols] items (as [generateCards] makes them) the wrapped texts
    of the document are, in order, the answers of the cells, each wrapped at
    the cell width minus 4 mm with the font size chosen for its length. *)
Theorem native_pdf_writes_every_cell
    (splitTextToSize : Q -> js_string -> Q -> list js_string)
    (pool : list BingoItem.t) (s : AppState) :
  let rows := gridRows s in
  let cols := gridCols s in
  0 <= rows -> 0 <= cols ->
  Forall (valid_card pool (rows * cols)) (cards s) ->
  exists selections : list (list BingoItem.t),
    map BingoCardData.cells (cards s) = map (map Item) selections /\
    drawn_lines (generateNativePDF splitTextToSize s)
    = concat (map (map (wrapped_answer splitTextToSize cols)) selections).
Proof.
  intros rows cols Hrows Hcols Hvalid. unfold generateNativePDF.
  fold rows cols. rewrite drawn_lines_app. cbn [drawn_lines Datatypes.app].
  generalize (length (cards s)) 0%nat 30%Q.
  induction Hvalid as [|card rest (selected & Hcells & Hlen & _) _ IH];
    intros total index cursorY.
  - exists []. split; reflexivity.
  - cbn [drawCards].
    destruct (drawCard _ _ _ _ _ _ _) as [calls cursorY'] eqn:Hcard.
    destruct (IH total (S index) cursorY') as (selections & Hsel & Hlines).
    exists (selected :: selections). split.
    + cbn [map]. rewrite Hcells, Hsel. reflexivity.
    + rewrite drawn_lines_app, Hlines. cbn [map concat]. f_equal.
      pose proof (drawCard_lines splitTextToSize rows cols total card selected
                    index cursorY Hrows Hcols Hcells Hlen) as H.
      rewrite Hcard in H. exact H.
Qed.

Lemma generated_world_cards :
  Forall (valid_card (pool_of 11) 9) (cards (app generated_world)).
Proof.
  change generated_world
    with (handleConfirmAndGenerate random7 items_as_requested confirming_world).
  rewrite handleConfirmAndGenerate_unfold. cbv zeta.
  replace (itemsOutcome items_as_requested (app confirming_world))
    with (Resolved (pool_of 11)) by (vm_compute; reflexivity).
  match goal with
  | |- context [generateCards random7 (pool_of 11) ?c ?w0] =>
      destruct (generateCards_enough random7 random7_unit (pool_of 11) c w0)
        as (newCards & rng' & -> & _ & Hvalid & _)
  end.
  { vm_compute. split; discriminate. }
  exact Hvalid.
Qed.

Lemma native_pdf_writes_every_cell_witness :
  let s := app generated_world in
  exists selections : list (list BingoItem.t),
    map BingoCardData.cells (cards s) = map (map Item) selections /\
    drawn_lines (generateNativePDF one_line s)
    = concat (map (map (wrapped_answer one_line (gridCols s))) selections).
Proof.
  apply (native_pdf_writes_every_cell one_line (pool_of 11)
           (app generated_world)).
  - vm_compute. discriminate.
  - vm_compute. discriminate.
  - exact generated_world_cards.
Defined.

Lemma pdfFileName_safe_witness :
  let subject := js "Breuken & procenten" in
  length (pdfFileName subject) = (length subject + 10)%nat /\
  replace_unsafe subject !! 6%nat = Some 110%N /\
  replace_unsafe subject !! 7%nat = Some 95%N.
Proof.
  destruct (pdfFileName_safe (js "Breuken & procenten"))
    as (_ & Hlen & _ & _ & Hlookup).
  split; [exact Hlen|]. split.
  - apply (Hlookup 6%nat 110%N); [reflexivity|]. unfold is_alnum. lia.
  - apply (Hlookup 7%nat 32%N); [reflexivity|]. unfold is_alnum. lia.
Defined.
